(** * mountmon: a shallow embedding of [mountmon.py] and its checked properties

    The daemon talks to the operating system all the time: it asks whether a
    path is a mountpoint, lists directories, spawns [mount]/[umount], writes a
    check file, sleeps, reads the clock and sends values to Zabbix.  Every
    such call is a primitive of a small state-and-exception monad [M].  A
    primitive asks an oracle ([Env]) for the answer of the outside world and
    records the call together with that answer in the history of the run.
    The oracle sees the whole history, so the answers may change from call to
    call in any way a real system could make them change.

    Conventions of the embedding:
    - clock readings and durations ([time.time()], [time.sleep], the
      configured interval) are binary64 floats, the kernel's primitive ones,
      and the sleep of the main loop is computed with their operations;
      [str] of a float is the interpreter's and comes with the oracle;
    - the top-level configuration dictionary always holds the keys of the
      default dictionary of [__init__] ([dict.update] never removes a key), so
      it is a record; [zabbix_address] has no default and is optional;
    - the per-mountpoint dictionaries come from the YAML file as they are and
      stay finite maps from keys to Python values;
    - signals are not delivered inside the model: no primitive raises
      [KeyboardInterrupt] by itself;
    - a primitive fails the way the operating system makes it fail.  What
      the interpreter refuses before it asks the operating system is outside
      the model: a path with a NUL character, on which [os.listdir] raises
      [TypeError], and a text that [str.format] cannot encode. *)

From stdpp Require Import base strings gmap list pretty.
From Stdlib Require Import ZArith Lia Floats.

Local Open Scope Z_scope.

(** ** Python values and exceptions *)

Inductive pyval :=
| PBool (b : bool)
| PInt (z : Z)
| PStr (s : string).

(** ["{}".format(v)] *)
Definition py_str (v : pyval) : string :=
  match v with
  | PBool true => "True"
  | PBool false => "False"
  | PInt z => pretty z
  | PStr s => s
  end.

(** [if v:] *)
Definition py_truthy (v : pyval) : bool :=
  match v with
  | PBool b => b
  | PInt z => negb (z =? 0)
  | PStr s => negb (String.eqb s "")
  end.

Inductive exn :=
| OSError
| IOError
| SocketError
| KeyError (key : string)
| AttributeError (attr : string)
| ZeroDivisionError
| KeyboardInterrupt
| SystemExit (status : Z).

Definition newline : string := String (Ascii.ascii_of_nat 10) "".

(** A whole number of seconds, as [time.sleep] and the clock count them. *)
Definition seconds (s : Z) : float := PrimFloat.of_uint63 (Uint63.of_Z s).

(** C's [fmod]: the remainder has the sign of [x] and is exact. *)
Definition fmod (x y : float) : float :=
  match Prim2SF x, Prim2SF y with
  | S754_nan, _ | _, S754_nan => nan
  | S754_infinity _, _ => nan
  | _, S754_zero _ => nan
  | S754_zero _, _ => x
  | S754_finite _ _ _, S754_infinity _ => x
  | S754_finite sx mx ex, S754_finite _ my ey =>
      let e := Z.min ex ey in
      let r := (Z.pos mx * 2 ^ (ex - e)) `mod` (Z.pos my * 2 ^ (ey - e)) in
      SF2Prim (binary_normalize prec emax (if sx then - r else r) e sx)
  end.

(** [vx % wx] on floats, for [wx] other than zero: [float_rem] of the
    interpreter after its test of the divisor.  The remainder gets the sign
    of the divisor. *)
Definition float_rem (vx wx : float) : float :=
  let r := fmod vx wx in
  if negb (r =? 0)%float then
    if negb (Bool.eqb (wx <? 0)%float (r <? 0)%float) then (r + wx)%float else r
  else
    let r := (r * r)%float in
    if (wx <? 0)%float then (- r)%float else r.

(** ** Configuration *)

(** [interval] is a float: an integer of the YAML file, like the 60 of the
    default dictionary, stands for the float of the same value, to which
    Python converts it in [float % int] and [int - float]. *)
Record Config := {
  daemonize : bool;
  interval : float;
  zabbix : bool;
  zabbix_trigger : string;
  zabbix_address : option string;
  logfile : string;
  loglevel : string;
  hostname : string;
  remount : bool;
  pidfile : string;
  working_dir : string;
  mountpoints : list (string * gmap string pyval)
}.

(** The dictionary built by [__init__]; [nodename] is [os.uname()[1]]. *)
Definition default_cfg (nodename : string) : Config := {|
  daemonize := false;
  interval := seconds 60;
  zabbix := false;
  zabbix_trigger := "mountmon.error";
  zabbix_address := None;
  logfile := "test_mountmon.log";
  loglevel := "DEBUG";
  hostname := nodename;
  remount := false;
  pidfile := "/var/run/mountmon.pid";
  working_dir := "/etc/mountmon";
  mountpoints :=
    [("/mymount",
      <["checkdir" := PStr "check"]>
        (<["checkfile" := PStr "foo"]>
           (<["write_check" := PBool true]> ∅)))]
|}.

(** What [yaml.load] returns: the keys present in the file. *)
Record CfgFile := {
  f_daemonize : option bool;
  f_interval : option float;
  f_zabbix : option bool;
  f_zabbix_trigger : option string;
  f_zabbix_address : option string;
  f_logfile : option string;
  f_loglevel : option string;
  f_hostname : option string;
  f_remount : option bool;
  f_pidfile : option string;
  f_working_dir : option string;
  f_mountpoints : option (list (string * gmap string pyval))
}.

(** [self.cfg.update(cfg_from_file)] *)
Definition cfg_update (c : Config) (f : CfgFile) : Config := {|
  daemonize := default (daemonize c) (f_daemonize f);
  interval := default (interval c) (f_interval f);
  zabbix := default (zabbix c) (f_zabbix f);
  zabbix_trigger := default (zabbix_trigger c) (f_zabbix_trigger f);
  zabbix_address :=
    match f_zabbix_address f with Some a => Some a | None => zabbix_address c end;
  logfile := default (logfile c) (f_logfile f);
  loglevel := default (loglevel c) (f_loglevel f);
  hostname := default (hostname c) (f_hostname f);
  remount := default (remount c) (f_remount f);
  pidfile := default (pidfile c) (f_pidfile f);
  working_dir := default (working_dir c) (f_working_dir f);
  mountpoints := default (mountpoints c) (f_mountpoints f)
|}.

Definition set_daemonize (c : Config) (b : bool) : Config := {|
  daemonize := b;
  interval := interval c;
  zabbix := zabbix c;
  zabbix_trigger := zabbix_trigger c;
  zabbix_address := zabbix_address c;
  logfile := logfile c;
  loglevel := loglevel c;
  hostname := hostname c;
  remount := remount c;
  pidfile := pidfile c;
  working_dir := working_dir c;
  mountpoints := mountpoints c
|}.

(** The root logger after [SetLogging]. *)
Record Logger := {
  log_filename : string;
  log_level : string;
  log_to_stdout : bool
}.

(** A [mountmon] object: [__init__] sets [cfg] only, [SetLogging] adds the
    attribute [logger]. *)
Record mountmon := {
  cfg : Config;
  logger : option Logger
}.

(** ** The outside world *)

Inductive level := DEBUG | INFO | WARNING | ERROR.

(** A call into the outside world, with the answer it got. *)
Inductive event :=
| EIsMount (path : string) (mounted : bool)
| EListDir (path : string) (ok : bool)
| EMkdir (path : string) (mode : Z) (ok : bool)
| EOpen (path : string) (ok : bool)
| ECtime (stamp : string)
| EWrite (path : string) (data : string) (ok : bool)
| EPopen (argv : list string) (returncode : option Z)
| ESleep (secs : float)
| ETime (now : float)
| EZabbix (addr host key : string) (value : Z) (ok : bool)
| ELog (lvl : level) (msg : string)
| EYamlLoad (path : string) (ok : bool)
| EBasicConfig (filename lvl : string) (ok : bool)
| EDaemonize (wd pid : string) (ok : bool)
| EPrint (msg : string).

(** The history of a run, oldest event first. *)
Definition history := list event.

Record Env := {
  env_nodename : string;
  env_ismount : history → string → bool;
  env_listdir : history → string → bool;
  env_mkdir : history → string → Z → bool;
  env_open : history → string → bool;
  env_ctime : history → string;
  env_write : history → string → string → bool;
  env_popen : history → list string → option Z;
  env_time : history → float;
  env_str_float : float → string;
  env_zbx_send : history → string → string → string → Z → bool;
  env_yaml_load : history → string → option CfgFile;
  env_basic_config : history → string → string → bool;
  env_daemonize : history → string → string → bool
}.

(** [files] holds, per path, what this process last wrote there. *)
Record World := {
  files : gmap string string;
  past : history
}.

Inductive result (A : Type) :=
| Ok (a : A)
| Raise (e : exn).
Arguments Ok {A} a.
Arguments Raise {A} e.

(** ** The monad *)

Definition M (A : Type) : Type := Env → World → result A * World.

#[export] Instance M_ret : MRet M := λ A a _ w, (Ok a, w).

#[export] Instance M_bind : MBind M := λ A B f m env w,
  match m env w with
  | (Ok a, w') => f a env w'
  | (Raise e, w') => (Raise e, w')
  end.

Definition raise {A} (e : exn) : M A := λ _ w, (Raise e, w).

(** [try: body / except: handler]; a handler that names an exception class
    re-raises the others itself. *)
Definition try_except {A} (body : M A) (handler : exn → M A) : M A := λ env w,
  match body env w with
  | (Ok a, w') => (Ok a, w')
  | (Raise e, w') => handler e env w'
  end.

Definition record_event (e : event) (w : World) : World :=
  {| files := files w; past := past w ++ [e] |}.

Definition set_file (p data : string) (w : World) : World :=
  {| files := <[p := data]> (files w); past := past w |}.

Definition emit (e : event) : M unit := λ _ w, (Ok (), record_event e w).

(** The events a computation adds to the history. *)
Definition events_of {A} (m : M A) (env : Env) (w : World) : list event :=
  drop (length (past w)) (past (m env w).2).

(** ** Primitives *)

(** A primitive that fails raises what its Python counterpart raises when
    the operating system refuses the call: [os.listdir], [os.mkdir] and
    [subprocess.Popen] raise [OSError], [open] and [write] raise [IOError].
    So the branch of a handler that raises again what is not an [OSError] is
    never taken by a failure of [os_listdir]. *)

Definition os_path_ismount (p : string) : M bool := λ env w,
  let r := env_ismount env (past w) p in
  (Ok r, record_event (EIsMount p r) w).

Definition os_listdir (p : string) : M unit := λ env w,
  let ok := env_listdir env (past w) p in
  (if ok then Ok () else Raise OSError, record_event (EListDir p ok) w).

Definition os_mkdir (p : string) (mode : Z) : M unit := λ env w,
  let ok := env_mkdir env (past w) p mode in
  (if ok then Ok () else Raise OSError, record_event (EMkdir p mode ok) w).

(** [open(p, 'w+')]: creates or truncates. *)
Definition open_w (p : string) : M unit := λ env w,
  let ok := env_open env (past w) p in
  if ok then (Ok (), set_file p "" (record_event (EOpen p ok) w))
  else (Raise IOError, record_event (EOpen p ok) w).

Definition time_ctime : M string := λ env w,
  let s := env_ctime env (past w) in
  (Ok s, record_event (ECtime s) w).

(** [f.write(data)] up to the flush when the [with] block closes the file; a
    failed write leaves the truncated file. *)
Definition file_write (p data : string) : M unit := λ env w,
  let ok := env_write env (past w) p data in
  if ok then (Ok (), set_file p data (record_event (EWrite p data ok) w))
  else (Raise IOError, record_event (EWrite p data ok) w).

(** [proc = subprocess.Popen(cmd); proc.wait(); proc.returncode] *)
Definition popen_wait (cmd : list string) : M Z := λ env w,
  let r := env_popen env (past w) cmd in
  (match r with Some rc => Ok rc | None => Raise OSError end,
   record_event (EPopen cmd r) w).

(** [time.sleep(secs)]; a negative argument is refused. *)
Definition time_sleep (secs : float) : M unit :=
  if (secs <? 0)%float then raise IOError else emit (ESleep secs).

Definition time_time : M float := λ env w,
  let t := env_time env (past w) in
  (Ok t, record_event (ETime t) w).

(** [x % y] on floats. *)
Definition py_mod (x y : float) : M float :=
  if (y =? 0)%float then raise ZeroDivisionError else mret (float_rem x y).

(** ["{}".format(x)] of a float. *)
Definition str_float (x : float) : M string := λ env w,
  (Ok (env_str_float env x), w).

(** [ZabbixSender(addr).send([ZabbixMetric(host, key, value)])] *)
Definition zbx_send (addr host key : string) (value : Z) : M unit := λ env w,
  let ok := env_zbx_send env (past w) addr host key value in
  (if ok then Ok () else Raise SocketError,
   record_event (EZabbix addr host key value ok) w).

(** [d[k]] *)
Definition dict_get (d : gmap string pyval) (k : string) : M pyval :=
  match d !! k with
  | Some v => mret v
  | None => raise (KeyError k)
  end.

Fixpoint assoc {V} (k : string) (d : list (string * V)) : option V :=
  match d with
  | [] => None
  | (k', v) :: d' => if String.eqb k' k then Some v else assoc k d'
  end.

(** [self.cfg['mountpoints'][mp][k]] *)
Definition mountpoint_opt (self : mountmon) (mp k : string) : M pyval :=
  match assoc mp (mountpoints (cfg self)) with
  | Some d => dict_get d k
  | None => raise (KeyError mp)
  end.

(** [self.logger.<lvl>(msg)] *)
Definition logger_log (self : mountmon) (lvl : level) (msg : string) : M unit :=
  match logger self with
  | Some _ => emit (ELog lvl msg)
  | None => raise (AttributeError "logger")
  end.

(** ** The program *)

Definition RunCommand (cmd : list string) : M bool :=
  try_except
    (returncode ← popen_wait cmd;
     mret (returncode =? 0))
    (λ _, mret false).

(** [ZabbixMetric] and [ZabbixSender] only store their arguments; the lookup
    of [zabbix_address] comes before the [try]. *)
Definition ZabbixSend (self : mountmon) (value : Z) (key : string) : M unit :=
  let key := if String.eqb key "" then zabbix_trigger (cfg self) else key in
  addr ← match zabbix_address (cfg self) with
         | Some a => mret a
         | None => raise (KeyError "zabbix_address")
         end;
  try_except
    (zbx_send addr (hostname (cfg self)) key value;;
     logger_log self DEBUG
       ("Sent key '" +:+ key +:+ "' value '" +:+ pretty value +:+ "' to zabbix"))
    (λ _,
     logger_log self ERROR
       ("Error sending key '" +:+ key +:+ "' value '" +:+ pretty value
        +:+ "' to zabbix.")).

Definition Error (self : mountmon) (output : string) (to_zabbix : Z) : M unit :=
  (if zabbix (cfg self) then ZabbixSend self to_zabbix "" else mret ());;
  logger_log self ERROR output.

Definition Mount (mp : string) : M bool :=
  RunCommand ["/usr/bin/mount"; mp].

Definition Umount (mp : string) : M bool :=
  result ← RunCommand ["/usr/bin/umount"; mp];
  if result : bool then mret result
  else RunCommand ["/usr/bin/umount"; "-l"; mp].

(** A block of [MountMon] either executes [return v] ([Some v]) or falls
    through to the statements after it ([None]). *)
Definition or_return (block : M (option Z)) (rest : M Z) : M Z :=
  r ← block;
  match r with
  | Some v => mret v
  | None => rest
  end.

(** [## mountpoint check] *)
Definition mountpoint_check (self : mountmon) (mp : string) : M (option Z) :=
  mounted ← os_path_ismount mp;
  if negb mounted then
    if remount (cfg self) then
      Error self (mp +:+ " found unmounted, attempting to mount") 1;;
      mounted ← Mount mp;
      if mounted : bool then
        time_sleep (seconds 2);;
        mret None
      else
        Error self (mp +:+ " could not be mounted") 1;;
        mret (Some 1)
    else
      Error self (mp +:+ " is not mounted") 1;;
      mret (Some 1)
  else mret None.

(** [## list mountpoint directory] *)
Definition list_check (self : mountmon) (mp : string) : M (option Z) :=
  try_except
    (os_listdir mp;;
     mret None)
    (λ e,
     match e with
     | OSError =>
         if remount (cfg self) then
           Error self
             ("mountpoint " +:+ mp +:+ " appears stale, attmepting remount") 2;;
           unmounted ← Umount mp;
           if unmounted : bool then
             time_sleep (seconds 2);;
             mounted ← Mount mp;
             if mounted : bool then
               time_sleep (seconds 2);;
               mret None
             else
               Error self
                 ("Unmounted stale mountpoint " +:+ mp +:+ ", but cannot remount") 2;;
               mret (Some 2)
           else
             Error self (mp +:+ " could not be unmounted for remount") 2;;
             mret (Some 2)
         else
           Error self (mp +:+ " not readable, appears stale") 2;;
           mret (Some 2)
     | _ => raise e
     end).

(** [## checkdir]; [0700] is 448. *)
Definition checkdir_check (self : mountmon) (mp checkdir : string) : M (option Z) :=
  try_except
    (os_listdir checkdir;;
     mret None)
    (λ e,
     match e with
     | OSError =>
         try_except
           (os_mkdir checkdir 448;;
            logger_log self WARNING ("Created monitor directory " +:+ checkdir);;
            mret None)
           (λ _,
            Error self
              ("Dir " +:+ mp +:+ " does not exist and could not create it.") 3;;
            mret (Some 3))
     | _ => raise e
     end).

(** [## write file] *)
Definition write_file (self : mountmon) (checkfile : string) : M (option Z) :=
  try_except
    (open_w checkfile;;
     looptime ← time_ctime;
     file_write checkfile (looptime +:+ newline);;
     mret None)
    (λ _,
     Error self ("Could not write file: " +:+ checkfile) 4;;
     mret (Some 4)).

(** [## file creation/writing check] *)
Definition file_check (self : mountmon) (mp checkdir checkfile : string)
  : M (option Z) :=
  write_check ← mountpoint_opt self mp "write_check";
  if py_truthy write_check then
    r ← checkdir_check self mp checkdir;
    match r with
    | Some v => mret (Some v)
    | None => write_file self checkfile
    end
  else mret None.

(** [MountMon] from the file check on, and from the listing on. *)
Definition file_check_onward (self : mountmon) (mp checkdir checkfile : string)
  : M Z :=
  or_return (file_check self mp checkdir checkfile) (mret 0).

Definition list_check_onward (self : mountmon) (mp checkdir checkfile : string)
  : M Z :=
  or_return (list_check self mp) (file_check_onward self mp checkdir checkfile).

Definition MountMon (self : mountmon) (mp : string) : M Z :=
  d ← mountpoint_opt self mp "checkdir";
  let checkdir := mp +:+ "/" +:+ py_str d in
  f ← mountpoint_opt self mp "checkfile";
  let checkfile := checkdir +:+ "/" +:+ py_str f in
  or_return (mountpoint_check self mp)
    (list_check_onward self mp checkdir checkfile).

(** The body of the [for] loop of [MainLoop]. *)
Definition loop_body (self : mountmon) (starttime : float) (mountpoint : string)
  : M unit :=
  err ← MountMon self mountpoint;
  now ← time_time;
  shown ← str_float now;
  logger_log self DEBUG ("Looped at " +:+ shown);;
  logger_log self DEBUG ("return = " +:+ pretty err);;
  now ← time_time;
  late ← py_mod (now - starttime)%float (interval (cfg self));
  time_sleep (interval (cfg self) - late)%float.

Fixpoint for_each {A} (xs : list A) (body : A → M unit) : M unit :=
  match xs with
  | [] => mret ()
  | x :: xs' => body x;; for_each xs' body
  end.

(** One turn of [while True]: [true] when the handler of
    [KeyboardInterrupt] returns from [MainLoop]. *)
Definition MainLoop_turn (self : mountmon) (starttime : float) : M bool :=
  try_except
    (for_each (mountpoints (cfg self)).*1 (loop_body self starttime);;
     mret false)
    (λ e,
     match e with
     | KeyboardInterrupt => mret true
     | _ => raise e
     end).

(** [while True] for at most [turns] turns: [Some ()] when [MainLoop]
    returned, [None] when it is still looping after that many turns. *)
Fixpoint MainLoop_while (turns : nat) (self : mountmon) (starttime : float)
  : M (option unit) :=
  match turns with
  | O => mret None
  | S n =>
      stop ← MainLoop_turn self starttime;
      if stop : bool then mret (Some ()) else MainLoop_while n self starttime
  end.

Definition MainLoop (turns : nat) (self : mountmon) : M (option unit) :=
  starttime ← time_time;
  MainLoop_while turns self starttime.

(** [open(cfgfile)], [yaml.load] and [dict.update]: any failure of the three
    raises inside the [try] of [GetConfig], and the oracle answers [None] for
    all of them alike.  A file that [dict.update] rejects after it has stored
    some of its keys leaves those in [self.cfg]; the model keeps the
    configuration as it was, so a file that fails after it has switched
    Zabbix on is outside the model. *)
Definition yaml_load_file (path : string) : M CfgFile := λ env w,
  let r := env_yaml_load env (past w) path in
  (match r with Some f => Ok f | None => Raise IOError end,
   record_event (EYamlLoad path (bool_decide (is_Some r))) w).

Definition GetConfig (self : mountmon) (cfgfile : string) : M mountmon :=
  try_except
    (cfg_from_file ← yaml_load_file cfgfile;
     mret {| cfg := cfg_update (cfg self) cfg_from_file; logger := logger self |})
    (λ _,
     Error self ("Error loading config from file " +:+ cfgfile +:+ ".") 5;;
     mret self).

Definition logging_basicConfig (filename lvl : string) : M unit := λ env w,
  let ok := env_basic_config env (past w) filename lvl in
  (if ok then Ok () else Raise IOError, record_event (EBasicConfig filename lvl ok) w).

(** The file handler of [basicConfig] opens the log file at once.  The
    stream handler is added when [daemonize] is [False]. *)
Definition SetLogging (self : mountmon) : M mountmon :=
  logging_basicConfig (logfile (cfg self)) (loglevel (cfg self));;
  mret {| cfg := cfg self;
          logger := Some {| log_filename := logfile (cfg self);
                            log_level := loglevel (cfg self);
                            log_to_stdout := negb (daemonize (cfg self)) |} |}.

(** [with daemon.DaemonContext(...)] *)
Definition daemon_context (wd pid : string) : M unit := λ env w,
  let ok := env_daemonize env (past w) wd pid in
  (if ok then Ok () else Raise OSError, record_event (EDaemonize wd pid ok) w).

Record Args := {
  cfgfile : string;
  zabbix_clear : bool
}.

(** The [__main__] block. *)
Definition main (turns : nat) (args : Args) : M (option unit) :=
  λ env,
  (let monitor := {| cfg := default_cfg (env_nodename env); logger := None |} in
   monitor ← GetConfig monitor (cfgfile args);
   if zabbix_clear args then
     emit (EPrint "Clearing zabbix errors...");;
     let monitor := {| cfg := set_daemonize (cfg monitor) false;
                       logger := logger monitor |} in
     monitor ← SetLogging monitor;
     ZabbixSend monitor 0 "";;
     raise (SystemExit 0)
   else if daemonize (cfg monitor) then
     daemon_context (working_dir (cfg monitor)) (pidfile (cfg monitor));;
     monitor ← SetLogging monitor;
     logger_log monitor INFO "Started mountmon";;
     MainLoop turns monitor
   else
     monitor ← SetLogging monitor;
     MainLoop turns monitor) env.

(** How the interpreter ends the process. *)
Inductive ProcessEnd :=
| Exit (status : Z)
| Traceback (e : exn)
| Looping.

Definition run_program (turns : nat) (args : Args) (env : Env) (w : World)
  : ProcessEnd * World :=
  match main turns args env w with
  | (Ok (Some _), w') => (Exit 0, w')
  | (Ok None, w') => (Looping, w')
  | (Raise (SystemExit status), w') => (Exit status, w')
  | (Raise e, w') => (Traceback e, w')
  end.

(** An uncaught exception prints a traceback and exits with status 1. *)
Definition exit_status (p : ProcessEnd) : option Z :=
  match p with
  | Exit status => Some status
  | Traceback _ => Some 1
  | Looping => None
  end.

(** ** Concrete worlds, for running the program *)

(** [str] of a float, as Python 2 prints it: twelve significant digits. *)

(** Drops the zeros at the end of a run of digits. *)
Fixpoint strip_zeros (s : string) : string :=
  match s with
  | EmptyString => EmptyString
  | String a s' =>
      match strip_zeros s' with
      | EmptyString =>
          if Ascii.eqb a (Ascii.ascii_of_nat 48) then EmptyString
          else String a EmptyString
      | t => String a t
      end
  end.

Fixpoint zeros (n : nat) : string :=
  match n with O => EmptyString | S n' => String (Ascii.ascii_of_nat 48) (zeros n') end.

Definition string_take (n : nat) (s : string) : string := String.substring 0 n s.
Definition string_drop (n : nat) (s : string) : string :=
  String.substring n (String.length s - n) s.

(** [num / den] rounded to the nearest integer, halves to the even one. *)
Definition round_half_even (num den : Z) : Z :=
  let q := num / den in
  let r := 2 * (num `mod` den) in
  if r <? den then q else if den <? r then q + 1 else if Z.even q then q else q + 1.

(** ['%.12g'] of the positive number [m * 2 ^ e], with [.0] added to a result
    that reads as an integer: [str] of a float in Python 2. *)
Definition str_positive (m e : Z) : string :=
  let num := m * 2 ^ Z.max 0 e in
  let den := 2 ^ Z.max 0 (- e) in
  let x := Z.of_nat (String.length (pretty (num * 10 ^ 340 / den))) - 341 in
  let d := round_half_even (num * 10 ^ Z.max 0 (11 - x)) (den * 10 ^ Z.max 0 (x - 11)) in
  let x := if d =? 10 ^ 12 then x + 1 else x in
  let d := if d =? 10 ^ 12 then 10 ^ 11 else d in
  let ds := pretty d in
  if (x <? -4) || (12 <=? x) then
    let frac := strip_zeros (string_drop 1 ds) in
    let ex := pretty (Z.abs x) in
    string_take 1 ds +:+ (if String.eqb frac "" then "" else "." +:+ frac) +:+
    "e" +:+ (if x <? 0 then "-" else "+") +:+
    (if Z.abs x <? 10 then "0" else "") +:+ ex
  else if x <? 0 then
    "0." +:+ zeros (Z.to_nat (- x - 1)) +:+ strip_zeros ds
  else
    let k := Z.to_nat (x + 1) in
    let frac := strip_zeros (string_drop k ds) in
    string_take k ds +:+ "." +:+ (if String.eqb frac "" then "0" else frac).

Definition str_of_float (x : float) : string :=
  match Prim2SF x with
  | S754_nan => "nan"
  | S754_infinity s => if s then "-inf" else "inf"
  | S754_zero s => if s then "-0.0" else "0.0"
  | S754_finite s m e => (if s then "-" else "") +:+ str_positive (Z.pos m) e
  end.

(** An outside world that always gives the same answers; [time.ctime] and
    [time.time] advance with the number of calls made so far. *)
Definition steady_env (mounted : bool) (listable : string → bool)
    (mkdir_ok open_ok write_ok : bool) (returncode : option Z) (zbx_ok : bool)
    (conf : option CfgFile) : Env := {|
  env_nodename := "host1";
  env_ismount := λ _ _, mounted;
  env_listdir := λ _ p, listable p;
  env_mkdir := λ _ _ _, mkdir_ok;
  env_open := λ _ _, open_ok;
  env_ctime := λ h, "tick " +:+ pretty (length h);
  env_write := λ _ _ _, write_ok;
  env_popen := λ _ _, returncode;
  env_time := λ h, seconds (Z.of_nat (length h));
  env_str_float := str_of_float;
  env_zbx_send := λ _ _ _ _ _, zbx_ok;
  env_yaml_load := λ _ _, conf;
  env_basic_config := λ _ _ _, true;
  env_daemonize := λ _ _ _, true
|}.

Definition healthy_env : Env :=
  steady_env true (λ _, true) true true true (Some 0) true None.

Definition empty_world : World := {| files := ∅; past := [] |}.

Definition stdout_logger : Logger :=
  {| log_filename := "test_mountmon.log"; log_level := "DEBUG";
     log_to_stdout := true |}.

(** The object of the unit test: default configuration, logging set up. *)
Definition reference : mountmon :=
  {| cfg := default_cfg "host1"; logger := Some stdout_logger |}.

(** The default configuration with remounting and Zabbix switched on. *)
Definition recovering : mountmon :=
  {| cfg := cfg_update (default_cfg "host1")
       {| f_daemonize := None; f_interval := None; f_zabbix := Some true;
          f_zabbix_trigger := None; f_zabbix_address := Some "zabbix.example";
          f_logfile := None; f_loglevel := None; f_hostname := None;
          f_remount := Some true; f_pidfile := None; f_working_dir := None;
          f_mountpoints := None |};
     logger := Some stdout_logger |}.

(** Zabbix switched on in the configuration file, without an address. *)
Definition no_address : mountmon :=
  {| cfg := cfg_update (default_cfg "host1")
       {| f_daemonize := None; f_interval := None; f_zabbix := Some true;
          f_zabbix_trigger := None; f_zabbix_address := None;
          f_logfile := None; f_loglevel := None; f_hostname := None;
          f_remount := None; f_pidfile := None; f_working_dir := None;
          f_mountpoints := None |};
     logger := Some stdout_logger |}.

(** A configuration file whose only mountpoint has [write_check] and neither
    [checkdir] nor [checkfile]. *)
Definition bare_entry : mountmon :=
  {| cfg := cfg_update (default_cfg "host1")
       {| f_daemonize := None; f_interval := None; f_zabbix := None;
          f_zabbix_trigger := None; f_zabbix_address := None;
          f_logfile := None; f_loglevel := None; f_hostname := None;
          f_remount := None; f_pidfile := None; f_working_dir := None;
          f_mountpoints := Some [("/mnt", {["write_check" := PBool true]})] |};
     logger := Some stdout_logger |}.

(** The default configuration before [SetLogging]. *)
Definition unlogged : mountmon :=
  {| cfg := default_cfg "host1"; logger := None |}.

(** Nothing is mounted and [mount] exits with status 1. *)
Definition unmounted_env : Env :=
  steady_env false (λ _, true) true true true (Some 1) true None.

(** Nothing is mounted when asked, [mount] exits with status 0 and the
    directories are there afterwards. *)
Definition mountable_env : Env :=
  steady_env false (λ _, true) true true true (Some 0) true None.

(** The mountpoint is mounted but cannot be listed; [umount] and [mount]
    exit with status 0. *)
Definition stale_env : Env :=
  steady_env true (λ _, false) true true true (Some 0) true None.

(** The mountpoint is fine, its checkdir is missing and cannot be made. *)
Definition no_checkdir_env : Env :=
  steady_env true (String.eqb "/mymount") false true true (Some 0) true None.

(** The outside world [env] with another clock. *)
Definition with_clock (env : Env) (clock : history → float) : Env := {|
  env_nodename := env_nodename env;
  env_ismount := env_ismount env;
  env_listdir := env_listdir env;
  env_mkdir := env_mkdir env;
  env_open := env_open env;
  env_ctime := env_ctime env;
  env_write := env_write env;
  env_popen := env_popen env;
  env_time := clock;
  env_str_float := env_str_float env;
  env_zbx_send := env_zbx_send env;
  env_yaml_load := env_yaml_load env;
  env_basic_config := env_basic_config env;
  env_daemonize := env_daemonize env
|}.

(** A healthy world whose clock reads 1700000000.0 when nothing has happened
    yet and 1700000000.3 from then on. *)
Definition drifting_env : Env :=
  with_clock healthy_env
    (λ h, match h with
          | [] => 0x1.954fc4p+30%float
          | _ => 0x1.954fc40133333p+30%float
          end).

(** The configuration of the unit test with [interval: 0.1]. *)
Definition tenth : mountmon :=
  {| cfg := cfg_update (default_cfg "host1")
       {| f_daemonize := None; f_interval := Some 0x1.999999999999ap-4%float;
          f_zabbix := None; f_zabbix_trigger := None; f_zabbix_address := None;
          f_logfile := None; f_loglevel := None; f_hostname := None;
          f_remount := None; f_pidfile := None; f_working_dir := None;
          f_mountpoints := None |};
     logger := Some stdout_logger |}.

Definition default_args : Args :=
  {| cfgfile := "/etc/mountmon/mountmon.yaml"; zabbix_clear := false |}.

(** ** Reading a history *)

(** [returncode == 0] *)
Definition succeeded (returncode : option Z) : bool :=
  match returncode with
  | Some rc => rc =? 0
  | None => false
  end.

Definition is_fs_write (e : event) : bool :=
  match e with
  | EMkdir _ _ _ | EOpen _ _ | EWrite _ _ _ => true
  | _ => false
  end.

Definition is_command (e : event) : bool :=
  match e with
  | EPopen _ _ => true
  | _ => false
  end.

(** Log records and values sent to Zabbix: all that [Error] does. *)
Definition is_report (e : event) : bool :=
  match e with
  | EZabbix _ _ _ _ _ | ELog _ _ => true
  | _ => false
  end.

(** The values handed to the Zabbix sender, in the order of the calls. *)
Fixpoint zabbix_values (evs : list event) : list Z :=
  match evs with
  | [] => []
  | EZabbix _ _ _ v _ :: evs' => v :: zabbix_values evs'
  | _ :: evs' => zabbix_values evs'
  end.

Definition extend (w : World) (evs : list event) : World :=
  {| files := files w; past := past w ++ evs |}.

(** ** Configurations that [MountMon] can run on *)

(** [(checkdir, checkfile)] as [MountMon] computes them. *)
Definition paths_of (self : mountmon) (mp : string) : option (string * string) :=
  d ← assoc mp (mountpoints (cfg self));
  c ← d !! "checkdir";
  f ← d !! "checkfile";
  Some (mp +:+ "/" +:+ py_str c, (mp +:+ "/" +:+ py_str c) +:+ "/" +:+ py_str f).

Definition write_check_of (self : mountmon) (mp : string) : option bool :=
  d ← assoc mp (mountpoints (cfg self));
  v ← d !! "write_check";
  Some (py_truthy v).

Definition has_logger (self : mountmon) : bool :=
  match logger self with
  | Some _ => true
  | None => false
  end.

(** [Error] finds what it looks up: the logger, and the Zabbix address when
    Zabbix is switched on. *)
Definition can_alert (self : mountmon) : bool :=
  has_logger self &&
  (if zabbix (cfg self) then bool_decide (is_Some (zabbix_address (cfg self)))
   else true).

(** The mountpoint is configured with its three options as well. *)
Definition well_configured (self : mountmon) (mp : string) : bool :=
  can_alert self &&
  bool_decide (is_Some (paths_of self mp)) &&
  bool_decide (is_Some (write_check_of self mp)).

(** What one call of [Error self _ v] adds to the history. *)
Definition reports (self : mountmon) (v : Z) (alerts : list event) : Prop :=
  Forall (λ e, is_report e = true) alerts ∧
  zabbix_values alerts = if zabbix (cfg self) then [v] else [].

(** The query whether [mp] is mounted was answered with no in [evs]. *)
Definition unmounted_seen (mp : string) (evs : list event) : bool :=
  existsb (λ e, match e with
                | EIsMount p false => String.eqb p mp
                | _ => false
                end) evs.

(** Listing [mp] failed in [evs]. *)
Definition stale_seen (mp : string) (evs : list event) : bool :=
  existsb (λ e, match e with
                | EListDir p false => String.eqb p mp
                | _ => false
                end) evs.

(** The values that the recovery attempts of a check with history [evs] send
    to Zabbix: 1 before the mountpoint found unmounted is mounted, 2 before
    the stale one is unmounted and mounted again. *)
Definition recovery_alerts (self : mountmon) (mp : string) (evs : list event)
  : list Z :=
  if remount (cfg self) then
    (if unmounted_seen mp evs then [1] else [])
    ++ (if stale_seen mp evs then [2] else [])
  else [].

(** ** The histories of the blocks of [MountMon] *)

(** The command line of [Mount]. *)
Definition mount_cmd (mp : string) : list string := ["/usr/bin/mount"; mp].

(** The histories of [Umount]: a plain [umount], and the lazy one after the
    plain one failed. *)
Inductive Umount_trace (mp : string) : list event → bool → Prop :=
| umount_plain :
    Umount_trace mp [EPopen ["/usr/bin/umount"; mp] (Some 0)] true
| umount_lazy rc rc' :
    succeeded rc = false →
    Umount_trace mp
      [EPopen ["/usr/bin/umount"; mp] rc; EPopen ["/usr/bin/umount"; "-l"; mp] rc']
      (succeeded rc').

(** The histories of the mountpoint check and what the block does next:
    [Some v] returns [v], [None] goes on to the listing. *)
Inductive mountpoint_check_trace (self : mountmon) (mp : string)
  : list event → option Z → Prop :=
| mc_mounted :
    mountpoint_check_trace self mp [EIsMount mp true] None
| mc_not_mounted alerts :
    remount (cfg self) = false →
    reports self 1 alerts →
    mountpoint_check_trace self mp (EIsMount mp false :: alerts) (Some 1)
| mc_mount_failed alerts rc alerts' :
    remount (cfg self) = true →
    reports self 1 alerts →
    succeeded rc = false →
    reports self 1 alerts' →
    mountpoint_check_trace self mp
      (EIsMount mp false :: alerts ++ EPopen (mount_cmd mp) rc :: alerts')
      (Some 1)
| mc_mounted_now alerts :
    remount (cfg self) = true →
    reports self 1 alerts →
    mountpoint_check_trace self mp
      (EIsMount mp false
       :: alerts ++ [EPopen (mount_cmd mp) (Some 0); ESleep (seconds 2)])
      None.

(** The histories of the listing of the mountpoint: [None] goes on to the
    file check. *)
Inductive list_check_trace (self : mountmon) (mp : string)
  : list event → option Z → Prop :=
| lc_listed :
    list_check_trace self mp [EListDir mp true] None
| lc_stale alerts :
    remount (cfg self) = false →
    reports self 2 alerts →
    list_check_trace self mp (EListDir mp false :: alerts) (Some 2)
| lc_umount_failed alerts cmds alerts' :
    remount (cfg self) = true →
    reports self 2 alerts →
    Umount_trace mp cmds false →
    reports self 2 alerts' →
    list_check_trace self mp (EListDir mp false :: alerts ++ cmds ++ alerts')
      (Some 2)
| lc_mount_failed alerts cmds rc alerts' :
    remount (cfg self) = true →
    reports self 2 alerts →
    Umount_trace mp cmds true →
    succeeded rc = false →
    reports self 2 alerts' →
    list_check_trace self mp
      (EListDir mp false
       :: alerts ++ cmds
          ++ ESleep (seconds 2) :: EPopen (mount_cmd mp) rc :: alerts')
      (Some 2)
| lc_remounted alerts cmds :
    remount (cfg self) = true →
    reports self 2 alerts →
    Umount_trace mp cmds true →
    list_check_trace self mp
      (EListDir mp false
       :: alerts ++ cmds
          ++ [ESleep (seconds 2); EPopen (mount_cmd mp) (Some 0);
              ESleep (seconds 2)])
      None.

Inductive checkdir_trace (self : mountmon) (checkdir : string)
  : list event → option Z → Prop :=
| cd_listed :
    checkdir_trace self checkdir [EListDir checkdir true] None
| cd_created :
    checkdir_trace self checkdir
      [EListDir checkdir false; EMkdir checkdir 448 true;
       ELog WARNING ("Created monitor directory " +:+ checkdir)]
      None
| cd_unavailable alerts :
    reports self 3 alerts →
    checkdir_trace self checkdir
      (EListDir checkdir false :: EMkdir checkdir 448 false :: alerts) (Some 3).

Inductive write_file_trace (self : mountmon) (checkfile : string)
  : list event → option Z → Prop :=
| wf_written stamp :
    write_file_trace self checkfile
      [EOpen checkfile true; ECtime stamp;
       EWrite checkfile (stamp +:+ newline) true]
      None
| wf_open_failed alerts :
    reports self 4 alerts →
    write_file_trace self checkfile (EOpen checkfile false :: alerts) (Some 4)
| wf_write_failed stamp alerts :
    reports self 4 alerts →
    write_file_trace self checkfile
      (EOpen checkfile true :: ECtime stamp
       :: EWrite checkfile (stamp +:+ newline) false :: alerts)
      (Some 4).

Inductive file_check_trace (self : mountmon) (mp checkdir checkfile : string)
  : list event → option Z → Prop :=
| fc_disabled :
    write_check_of self mp = Some false →
    file_check_trace self mp checkdir checkfile [] None
| fc_no_checkdir evs v :
    write_check_of self mp = Some true →
    checkdir_trace self checkdir evs (Some v) →
    file_check_trace self mp checkdir checkfile evs (Some v)
| fc_write evs evs' r :
    write_check_of self mp = Some true →
    checkdir_trace self checkdir evs None →
    write_file_trace self checkfile evs' r →
    file_check_trace self mp checkdir checkfile (evs ++ evs') r.

(** The histories of a whole check, with the code it returns. *)
Inductive MountMon_trace (self : mountmon) (mp checkdir checkfile : string)
  : list event → Z → Prop :=
| mm_mountpoint evs v :
    mountpoint_check_trace self mp evs (Some v) →
    MountMon_trace self mp checkdir checkfile evs v
| mm_list evs1 evs2 v :
    mountpoint_check_trace self mp evs1 None →
    list_check_trace self mp evs2 (Some v) →
    MountMon_trace self mp checkdir checkfile (evs1 ++ evs2) v
| mm_file evs1 evs2 evs3 v :
    mountpoint_check_trace self mp evs1 None →
    list_check_trace self mp evs2 None →
    file_check_trace self mp checkdir checkfile evs3 (Some v) →
    MountMon_trace self mp checkdir checkfile (evs1 ++ evs2 ++ evs3) v
| mm_good evs1 evs2 evs3 :
    mountpoint_check_trace self mp evs1 None →
    list_check_trace self mp evs2 None →
    file_check_trace self mp checkdir checkfile evs3 None →
    MountMon_trace self mp checkdir checkfile (evs1 ++ evs2 ++ evs3) 0.

(** From world [w] on the mountpoint is mounted and can be listed, its
    checkdir exists and its checkfile can be written. *)
Definition healthy_from (env : Env) (w : World) (mp checkdir checkfile : string)
  : Prop :=
  ∀ evs,
    let h := past w ++ evs in
    env_ismount env h mp = true ∧
    env_listdir env h mp = true ∧
    env_listdir env h checkdir = true ∧
    env_open env h checkfile = true ∧
    ∀ data, env_write env h checkfile data = true.

(** What a healthy check adds to the history when [time.ctime()] gives
    [stamp]. *)
Definition healthy_events (mp checkdir checkfile stamp : string) : list event :=
  [EIsMount mp true; EListDir mp true; EListDir checkdir true;
   EOpen checkfile true; ECtime stamp;
   EWrite checkfile (stamp +:+ newline) true].

(** ** What a computation may add to the history *)

(** Whatever the outside world answers, what [m] adds to the history
    satisfies [Q]. *)
Definition adds {A} (Q : list event → Prop) (m : M A) : Prop :=
  ∀ env w, ∃ evs, past (m env w).2 = past w ++ evs ∧ Q evs.

(** [m] adds only events that [P] accepts. *)
Definition emits {A} (P : event → bool) (m : M A) : Prop :=
  adds (Forall (λ e, P e = true)) m.

(** The events of the file check. *)
Definition file_check_event (e : event) : bool :=
  match e with
  | EListDir _ _ | EMkdir _ _ _ | EOpen _ _ | ECtime _ | EWrite _ _ _
  | EZabbix _ _ _ _ _ | ELog _ _ => true
  | _ => false
  end.

(** The events of a whole check: those of the file check, the mount query,
    the commands and the settle delay of two seconds. *)
Definition MountMon_event (e : event) : bool :=
  match e with
  | EIsMount _ _ | EPopen _ _ => true
  | ESleep d => (d =? seconds 2)%float
  | _ => file_check_event e
  end.

(** ** The sleeps of the main loop *)

(** The argument of the sleep at the end of the loop body when the clock
    reads [now]: [interval - ((now - starttime) % interval)], each operation
    rounded to binary64. *)
Definition cadence (step start now : float) : float :=
  (step - float_rem (now - start) step)%float.

(** The value of a finite float, counted in units of [2 ^ -1074]: every
    finite binary64 number is a whole multiple of that unit. *)
Definition exact (x : float) : option Z :=
  match Prim2SF x with
  | S754_zero _ => Some 0
  | S754_finite s m e =>
      Some ((if s then - Z.pos m else Z.pos m) * 2 ^ (e + 1074))
  | _ => None
  end.

(** Clock readings [start] and [now] that are positive and have the same
    exponent, as all readings between [2 ^ 30] and [2 ^ 31] seconds after the
    epoch have, [now] not before [start]; and a positive interval whose
    exponent is not above theirs, as that of every interval below [2 ^ 31]
    seconds is then. *)
Definition in_range (start step now : float) : bool :=
  match Prim2SF start, Prim2SF now, Prim2SF step with
  | S754_finite false ms e, S754_finite false mn e', S754_finite false _ ei =>
      (e =? e') && (ms <=? mn)%positive && (ei <=? e)
  | _, _, _ => false
  end.

(** The sleep of [d] seconds that begins at the clock reading [now] lasts at
    most one interval and ends on a point [start + k * step] of the grid,
    with [k] from 1 on: the sum [now + d] taken exactly, not rounded. *)
Definition wakes_on_grid (start step now d : float) : bool :=
  match exact start, exact step, exact now, exact d with
  | Some s, Some i, Some n, Some t =>
      (0 <? t) && (t <=? i) && (0 <? n + t - s) && ((n + t - s) `mod` i =? 0)
  | _, _, _, _ => false
  end.

(** The event before the next one: the last of [evs], or [prev]. *)
Definition last_event (prev : option event) (evs : list event) : option event :=
  match last evs with
  | Some e => Some e
  | None => prev
  end.

(** Reading a history with the event before it: a sleep that directly follows
    a clock reading [now] has the argument [cadence step start now]; any other
    sleep is the settle delay. *)
Fixpoint paced (start step : float) (prev : option event) (evs : list event)
  : Prop :=
  match evs with
  | [] => True
  | e :: evs' =>
      match e, prev with
      | ESleep d, Some (ETime now) => d = cadence step start now
      | ESleep d, _ => d = seconds 2
      | _, _ => True
      end ∧ paced start step (Some e) evs'
  end.

(** Paced after whatever came before. *)
Definition well_paced (start step : float) (evs : list event) : Prop :=
  ∀ prev, paced start step prev evs.

(** What the loop body adds to the history after a check that returned [v]:
    the clock reading [t] and the two debug records, then the clock reading
    [now] and the sleep computed from it. *)
Definition loop_tail (self : mountmon) (str : float → string) (start : float)
    (v : Z) (t now : float) : list event :=
  [ETime t; ELog DEBUG ("Looped at " +:+ str t);
   ELog DEBUG ("return = " +:+ pretty v);
   ETime now; ESleep (cadence (interval (cfg self)) start now)].

(** The histories of the [for] loop over the mountpoints [mps]: every check
    is followed by the sleep of [loop_tail]. *)
Inductive MainLoop_trace (self : mountmon) (str : float → string) (start : float)
  : list string → list event → Prop :=
| ml_done :
    MainLoop_trace self str start [] []
| ml_check mp mps checkdir checkfile check v t now rest :
    paths_of self mp = Some (checkdir, checkfile) →
    MountMon_trace self mp checkdir checkfile check v →
    MainLoop_trace self str start mps rest →
    MainLoop_trace self str start (mp :: mps)
      (check ++ loop_tail self str start v t now ++ rest).

(** * Proofs *)

Arguments String.append : simpl never.
Arguments pretty : simpl never.
Arguments seconds : simpl never.
Arguments time_sleep : simpl never.

(** ** Runs of the building blocks *)

Lemma events_of_past {A} (m : M A) env w evs :
  past (m env w).2 = past w ++ evs → events_of m env w = evs.
Proof. unfold events_of. intros ->. apply drop_app_length. Qed.

Lemma extend_extend w evs1 evs2 :
  extend (extend w evs1) evs2 = extend w (evs1 ++ evs2).
Proof. unfold extend. cbn. by rewrite app_assoc. Qed.

Lemma record_event_extend e w : record_event e w = extend w [e].
Proof. reflexivity. Qed.

(** Bring every world to the form [extend w evs]. *)
Ltac tidy :=
  repeat first
    [ rewrite record_event_extend in *
    | rewrite extend_extend in * ].

(** Right-nest the appends of a history. *)
Ltac flat := rewrite <- ?app_assoc in *; cbn [app] in *.

Lemma zabbix_values_app evs evs' :
  zabbix_values (evs ++ evs') = zabbix_values evs ++ zabbix_values evs'.
Proof.
  induction evs as [|e evs IH]; [done|].
  destruct e; cbn; by rewrite ?IH.
Qed.

Lemma logger_log_run self lvl msg env w :
  has_logger self = true →
  logger_log self lvl msg env w = (Ok (), extend w [ELog lvl msg]).
Proof. unfold has_logger, logger_log. by destruct (logger self). Qed.

Lemma ZabbixSend_run self v key env w :
  has_logger self = true →
  is_Some (zabbix_address (cfg self)) →
  ∃ alerts,
    ZabbixSend self v key env w = (Ok (), extend w alerts) ∧
    Forall (λ e, is_report e = true) alerts ∧ zabbix_values alerts = [v].
Proof.
  intros Hlog [addr Haddr]. unfold ZabbixSend. rewrite Haddr.
  unfold mbind, M_bind, try_except, zbx_send. cbn.
  destruct (env_zbx_send _ _ _ _ _ _) eqn:Hsend;
    rewrite record_event_extend, (logger_log_run _ _ _ _ _ Hlog), extend_extend;
    eexists; (split; [reflexivity|]); split; by repeat constructor.
Qed.

Lemma Error_run self output v env w :
  can_alert self = true →
  ∃ alerts,
    Error self output v env w = (Ok (), extend w alerts) ∧ reports self v alerts.
Proof.
  unfold can_alert, Error, reports. intros [Hlog Hz]%andb_true_iff.
  unfold mbind, M_bind. destruct (zabbix (cfg self)).
  - apply bool_decide_eq_true in Hz.
    destruct (ZabbixSend_run self v "" env w Hlog Hz) as (alerts & -> & Hrep & Hval).
    rewrite (logger_log_run _ _ _ _ _ Hlog), extend_extend.
    eexists; split; [reflexivity|]. split.
    + apply Forall_app; split; [done | by repeat constructor].
    + by rewrite zabbix_values_app, Hval.
  - cbn. rewrite (logger_log_run _ _ _ _ _ Hlog).
    eexists; split; [reflexivity|]. split; by repeat constructor.
Qed.

Lemma RunCommand_run cmd env w :
  RunCommand cmd env w =
  (Ok (succeeded (env_popen env (past w) cmd)),
   extend w [EPopen cmd (env_popen env (past w) cmd)]).
Proof.
  unfold RunCommand, try_except, mbind, M_bind, popen_wait. cbn.
  by destruct (env_popen env (past w) cmd).
Qed.
Lemma succeeded_true rc : succeeded rc = true → rc = Some 0.
Proof. destruct rc as [z|]; [|done]. cbn. intros ->%Z.eqb_eq. done. Qed.

Lemma Mount_run mp env w :
  Mount mp env w =
  (Ok (succeeded (env_popen env (past w) (mount_cmd mp))),
   extend w [EPopen (mount_cmd mp) (env_popen env (past w) (mount_cmd mp))]).
Proof. apply RunCommand_run. Qed.

Lemma Umount_run mp env w :
  ∃ cmds b, Umount mp env w = (Ok b, extend w cmds) ∧ Umount_trace mp cmds b.
Proof.
  unfold Umount, mbind, M_bind. rewrite RunCommand_run.
  destruct (succeeded _) eqn:Hrc.
  - apply succeeded_true in Hrc. rewrite Hrc. cbn.
    eexists _, _. split; [reflexivity|]. constructor.
  - rewrite RunCommand_run, extend_extend.
    eexists _, _. split; [reflexivity|]. by constructor.
Qed.

Lemma time_sleep_settle env w :
  time_sleep (seconds 2) env w = (Ok (), extend w [ESleep (seconds 2)]).
Proof. reflexivity. Qed.

Lemma mountpoint_check_run self mp env w :
  can_alert self = true →
  ∃ evs r,
    mountpoint_check self mp env w = (Ok r, extend w evs) ∧
    mountpoint_check_trace self mp evs r ∧
    head evs = Some (EIsMount mp (env_ismount env (past w) mp)).
Proof.
  intros Hcfg. unfold mountpoint_check, mbind, M_bind, os_path_ismount. cbn.
  destruct (env_ismount env (past w) mp); cbn.
  { eexists _, _. split; [reflexivity|]. split; [constructor | done]. }
  destruct (remount (cfg self)) eqn:Hre.
  - destruct (Error_run self (mp +:+ " found unmounted, attempting to mount")
                1 env (record_event (EIsMount mp false) w) Hcfg)
      as (alerts & -> & Hrep).
    rewrite Mount_run. tidy. destruct (succeeded _) eqn:Hrc.
    + apply succeeded_true in Hrc. rewrite Hrc.
      rewrite time_sleep_settle. tidy.
      eexists _, _. split; [reflexivity|].
      split; [|done]. flat. by apply mc_mounted_now.
    + match goal with |- context [Error ?s ?m ?v ?e ?w'] =>
        destruct (Error_run s m v e w' Hcfg) as (alerts' & -> & Hrep') end.
      tidy.
      eexists _, _. split; [reflexivity|].
      split; [|done]. flat. by apply mc_mount_failed.
  - destruct (Error_run self (mp +:+ " is not mounted")
                1 env (record_event (EIsMount mp false) w) Hcfg)
      as (alerts & -> & Hrep).
    rewrite record_event_extend, !extend_extend.
    eexists _, _. split; [reflexivity|]. split; [|done]. flat. by apply mc_not_mounted.
Qed.

Ltac step_Error Hcfg alerts Hrep :=
  match goal with
  | |- context [Error ?s ?m ?v ?e ?w'] =>
      destruct (Error_run s m v e w' Hcfg) as (alerts & -> & Hrep); tidy
  end.

Lemma list_check_run self mp env w :
  can_alert self = true →
  ∃ evs r,
    list_check self mp env w = (Ok r, extend w evs) ∧
    list_check_trace self mp evs r ∧
    head evs = Some (EListDir mp (env_listdir env (past w) mp)).
Proof.
  intros Hcfg. unfold list_check, try_except, mbind, M_bind, os_listdir. cbn.
  destruct (env_listdir env (past w) mp); cbn.
  { eexists _, _. split; [reflexivity|]. split; [constructor | done]. }
  tidy. destruct (remount (cfg self)) eqn:Hre.
  - step_Error Hcfg alerts Hrep.
    destruct (Umount_run mp env (extend w ([EListDir mp false] ++ alerts)))
      as (cmds & b & -> & Hcmds).
    tidy. destruct b.
    + rewrite time_sleep_settle, Mount_run. tidy.
      destruct (succeeded _) eqn:Hrc.
      * apply succeeded_true in Hrc. rewrite Hrc, time_sleep_settle. tidy.
        eexists _, _. split; [reflexivity|].
        split; [|done]. flat. by apply lc_remounted.
      * step_Error Hcfg alerts' Hrep'.
        eexists _, _. split; [reflexivity|].
        split; [|done]. flat. by apply lc_mount_failed.
    + step_Error Hcfg alerts' Hrep'.
      eexists _, _. split; [reflexivity|].
      split; [|done]. flat. by apply lc_umount_failed.
  - step_Error Hcfg alerts Hrep.
    eexists _, _. split; [reflexivity|]. split; [|done]. by apply lc_stale.
Qed.

Lemma checkdir_check_run self mp checkdir env w :
  can_alert self = true →
  ∃ evs r,
    checkdir_check self mp checkdir env w = (Ok r, extend w evs) ∧
    checkdir_trace self checkdir evs r ∧
    head evs = Some (EListDir checkdir (env_listdir env (past w) checkdir)).
Proof.
  intros Hcfg. pose proof Hcfg as [Hlog _]%andb_true_iff.
  unfold checkdir_check, try_except, mbind, M_bind, os_listdir, os_mkdir. cbn.
  destruct (env_listdir env (past w) checkdir); cbn.
  { eexists _, _. split; [reflexivity|]. split; [constructor | done]. }
  tidy. destruct (env_mkdir _ _ _ _) eqn:Hmk; tidy.
  - rewrite (logger_log_run _ _ _ _ _ Hlog). tidy.
    eexists _, _. split; [reflexivity|]. split; [constructor | done].
  - step_Error Hcfg alerts Hrep.
    eexists _, _. split; [reflexivity|]. split; [|done]. by constructor.
Qed.

Lemma write_file_run self checkfile env w :
  can_alert self = true →
  ∃ evs r w',
    write_file self checkfile env w = (Ok r, w') ∧
    past w' = past w ++ evs ∧
    write_file_trace self checkfile evs r.
Proof.
  intros Hcfg.
  unfold write_file, try_except, mbind, M_bind, open_w, time_ctime, file_write.
  cbn. destruct (env_open env (past w) checkfile); cbn.
  - destruct (env_write _ _ _ _) eqn:Hwr; cbn.
    + eexists _, _, _. split; [reflexivity|]. cbn. flat.
      split; [reflexivity|]. constructor.
    + match goal with |- context [Error ?s ?m ?v ?e ?w'] =>
        destruct (Error_run s m v e w' Hcfg) as (alerts & -> & Hrep) end.
      eexists _, _, _. split; [reflexivity|]. cbn. flat.
      split; [reflexivity|]. by constructor.
  - match goal with |- context [Error ?s ?m ?v ?e ?w'] =>
      destruct (Error_run s m v e w' Hcfg) as (alerts & -> & Hrep) end.
    eexists _, _, _. split; [reflexivity|]. cbn. flat.
    split; [reflexivity|]. by constructor.
Qed.

Lemma mountpoint_opt_write_check self mp b env w :
  write_check_of self mp = Some b →
  ∃ v, mountpoint_opt self mp "write_check" env w = (Ok v, w) ∧ py_truthy v = b.
Proof.
  unfold write_check_of, mountpoint_opt, dict_get.
  destruct (assoc mp (mountpoints (cfg self))) as [d|]; [|done]. cbn.
  destruct (d !! "write_check") as [v|]; [|done]. cbn.
  intros [= <-]. by exists v.
Qed.

Lemma file_check_run self mp checkdir checkfile env w :
  can_alert self = true →
  is_Some (write_check_of self mp) →
  ∃ evs r w',
    file_check self mp checkdir checkfile env w = (Ok r, w') ∧
    past w' = past w ++ evs ∧
    file_check_trace self mp checkdir checkfile evs r.
Proof.
  intros Hcfg [b Hb]. unfold file_check, mbind, M_bind.
  destruct (mountpoint_opt_write_check _ _ _ env w Hb) as (v & -> & <-).
  cbn beta iota. destruct (py_truthy v); cbn beta iota.
  - destruct (checkdir_check_run self mp checkdir env w Hcfg)
      as (evs & r & -> & Hdir & _).
    destruct r as [v'|]; cbn beta iota.
    + eexists _, _, _. split; [reflexivity|]. split; [reflexivity|].
      by apply fc_no_checkdir.
    + destruct (write_file_run self checkfile env (extend w evs) Hcfg)
        as (evs' & r & w' & -> & Hw' & Hwr).
      eexists _, _, _. split; [reflexivity|]. rewrite Hw'. cbn. flat.
      split; [reflexivity|]. by apply fc_write.
  - eexists [], _, _. split; [reflexivity|]. rewrite app_nil_r.
    split; [reflexivity|]. by apply fc_disabled.
Qed.

Lemma MountMon_paths self mp checkdir checkfile env w :
  paths_of self mp = Some (checkdir, checkfile) →
  MountMon self mp env w =
  or_return (mountpoint_check self mp)
    (list_check_onward self mp checkdir checkfile) env w.
Proof.
  unfold paths_of, MountMon, mountpoint_opt, dict_get.
  destruct (assoc mp (mountpoints (cfg self))) as [d|]; [|done]. cbn.
  destruct (d !! "checkdir") as [c|]; [|done]. cbn.
  destruct (d !! "checkfile") as [f|]; [|done]. cbn.
  by intros [= <- <-].
Qed.

Lemma MountMon_after_mountpoint_check self mp checkdir checkfile env w evs r :
  paths_of self mp = Some (checkdir, checkfile) →
  mountpoint_check self mp env w = (Ok r, extend w evs) →
  MountMon self mp env w =
  match r with
  | Some v => (Ok v, extend w evs)
  | None => list_check_onward self mp checkdir checkfile env (extend w evs)
  end.
Proof.
  intros Hp Hrun. rewrite (MountMon_paths _ _ _ _ _ _ Hp).
  unfold or_return, mbind, M_bind. rewrite Hrun. by destruct r.
Qed.

Lemma list_check_onward_after self mp checkdir checkfile env w evs r :
  list_check self mp env w = (Ok r, extend w evs) →
  list_check_onward self mp checkdir checkfile env w =
  match r with
  | Some v => (Ok v, extend w evs)
  | None => file_check_onward self mp checkdir checkfile env (extend w evs)
  end.
Proof.
  intros Hrun. unfold list_check_onward, or_return, mbind, M_bind.
  rewrite Hrun. by destruct r.
Qed.

Lemma file_check_onward_after self mp checkdir checkfile env w w' r :
  file_check self mp checkdir checkfile env w = (Ok r, w') →
  file_check_onward self mp checkdir checkfile env w = (Ok (default 0 r), w').
Proof.
  intros Hrun. unfold file_check_onward, or_return, mbind, M_bind.
  rewrite Hrun. by destruct r.
Qed.

Lemma events_of_run {A} (m : M A) env w r w' evs :
  m env w = (r, w') → past w' = past w ++ evs → events_of m env w = evs.
Proof. intros Hrun Hw'. apply events_of_past. by rewrite Hrun. Qed.

Lemma well_configured_inv self mp :
  well_configured self mp = true →
  can_alert self = true ∧ is_Some (paths_of self mp) ∧
  is_Some (write_check_of self mp).
Proof.
  unfold well_configured.
  intros [[? ?%bool_decide_eq_true]%andb_true_iff ?%bool_decide_eq_true]%andb_true_iff.
  done.
Qed.

Lemma MountMon_run self mp checkdir checkfile env w :
  well_configured self mp = true →
  paths_of self mp = Some (checkdir, checkfile) →
  ∃ evs v w',
    MountMon self mp env w = (Ok v, w') ∧
    past w' = past w ++ evs ∧
    MountMon_trace self mp checkdir checkfile evs v.
Proof.
  intros (Hcfg & _ & Hwc)%well_configured_inv Hp.
  destruct (mountpoint_check_run self mp env w Hcfg) as (evs1 & r1 & Hrun1 & H1 & _).
  rewrite (MountMon_after_mountpoint_check _ _ _ _ _ _ _ _ Hp Hrun1).
  destruct r1 as [v|].
  { eexists _, _, _. split; [reflexivity|]. split; [reflexivity|].
    by apply mm_mountpoint. }
  destruct (list_check_run self mp env (extend w evs1) Hcfg)
    as (evs2 & r2 & Hrun2 & H2 & _).
  rewrite (list_check_onward_after _ _ _ _ _ _ _ _ Hrun2). tidy.
  destruct r2 as [v|].
  { eexists _, _, _. split; [reflexivity|]. split; [reflexivity|].
    by apply mm_list. }
  destruct (file_check_run self mp checkdir checkfile env
              (extend w (evs1 ++ evs2)) Hcfg Hwc)
    as (evs3 & r3 & w' & Hrun3 & Hw' & H3).
  rewrite (file_check_onward_after _ _ _ _ _ _ _ _ Hrun3).
  cbn in Hw'. flat.
  eexists _, _, _. split; [reflexivity|]. split; [exact Hw'|].
  destruct r3 as [v|]; [by apply mm_file | by apply mm_good].
Qed.

Lemma reports_no_fs_write self v alerts :
  reports self v alerts →
  Forall (λ e, is_fs_write e = false ∧ is_command e = false) alerts.
Proof.
  intros [Hrep _]. eapply Forall_impl; [exact Hrep|].
  by intros [] ?.
Qed.

(** C2: when the mountpoint is not mounted and remounting is off, [MountMon]
    returns 1 at once: it writes nothing to the file system and starts no
    process.  When remounting is on it runs [/usr/bin/mount] once; if that
    fails it returns 1, and if it succeeds it sleeps two seconds and goes on
    with the listing of the mountpoint.  [Error] needs its logger and, with
    Zabbix on, the address ([can_alert]). *)
Theorem MountMon_not_mounted self mp checkdir checkfile env w :
  can_alert self = true →
  paths_of self mp = Some (checkdir, checkfile) →
  env_ismount env (past w) mp = false →
  if remount (cfg self) then
    ∃ alerts rc,
      reports self 1 alerts ∧
      if succeeded rc then
        MountMon self mp env w =
        list_check_onward self mp checkdir checkfile env
          (extend w
             (EIsMount mp false
              :: alerts ++ [EPopen (mount_cmd mp) rc; ESleep (seconds 2)]))
      else
        (MountMon self mp env w).1 = Ok 1 ∧
        ∃ alerts',
          reports self 1 alerts' ∧
          events_of (MountMon self mp) env w =
          EIsMount mp false :: alerts ++ EPopen (mount_cmd mp) rc :: alerts'
  else
    (MountMon self mp env w).1 = Ok 1 ∧
    files (MountMon self mp env w).2 = files w ∧
    Forall (λ e, is_fs_write e = false ∧ is_command e = false)
      (events_of (MountMon self mp) env w) ∧
    ∃ alerts,
      reports self 1 alerts ∧
      events_of (MountMon self mp) env w = EIsMount mp false :: alerts.
Proof.
  intros Hcfg Hp Hm.
  destruct (mountpoint_check_run self mp env w Hcfg) as (evs & r & Hrun & Htr & Hhd).
  pose proof (MountMon_after_mountpoint_check _ _ _ _ _ _ _ _ Hp Hrun) as HM.
  rewrite Hm in Hhd.
  destruct Htr as [|alerts Hre Hrep|alerts rc alerts' Hre Hrep Hrc Hrep'
                  |alerts Hre Hrep]; try done; rewrite Hre.
  - rewrite (events_of_run _ _ _ _ _ _ HM eq_refl), HM.
    split; [done|]. split; [done|]. split; [|by eauto].
    constructor; [done|]. by eapply reports_no_fs_write.
  - exists alerts, rc. split; [done|]. rewrite Hrc.
    rewrite (events_of_run _ _ _ _ _ _ HM eq_refl), HM. eauto.
  - by exists alerts, (Some 0).
Qed.

Lemma mountpoint_check_mounted self mp env w :
  env_ismount env (past w) mp = true →
  mountpoint_check self mp env w = (Ok None, extend w [EIsMount mp true]).
Proof.
  intros Hm. unfold mountpoint_check, mbind, M_bind, os_path_ismount.
  cbn. by rewrite Hm.
Qed.

Lemma MountMon_mounted self mp checkdir checkfile env w :
  paths_of self mp = Some (checkdir, checkfile) →
  env_ismount env (past w) mp = true →
  MountMon self mp env w =
  list_check_onward self mp checkdir checkfile env (extend w [EIsMount mp true]).
Proof.
  intros Hp Hm.
  apply (MountMon_after_mountpoint_check _ _ _ _ _ _ _ None Hp).
  by apply mountpoint_check_mounted.
Qed.

(** C3: when the mountpoint is mounted and listing it fails, [MountMon]
    returns 2 with remounting off, and the history shows that the file check
    was never started.  With remounting on it runs [Umount] and returns 2 if
    that fails; otherwise it sleeps two seconds and runs [Mount], returns 2 if
    that fails, and otherwise sleeps two seconds again and goes on with the
    file check, without listing the mountpoint a second time. *)
Theorem MountMon_stale self mp checkdir checkfile env w :
  can_alert self = true →
  paths_of self mp = Some (checkdir, checkfile) →
  env_ismount env (past w) mp = true →
  env_listdir env (past w ++ [EIsMount mp true]) mp = false →
  if remount (cfg self) then
    ∃ alerts cmds unmounted,
      reports self 2 alerts ∧
      Umount_trace mp cmds unmounted ∧
      let tried := EIsMount mp true :: EListDir mp false :: alerts ++ cmds in
      if unmounted then
        ∃ rc,
          if succeeded rc then
            MountMon self mp env w =
            file_check_onward self mp checkdir checkfile env
              (extend w
                 (tried ++ [ESleep (seconds 2); EPopen (mount_cmd mp) rc;
                            ESleep (seconds 2)]))
          else
            (MountMon self mp env w).1 = Ok 2 ∧
            ∃ alerts',
              reports self 2 alerts' ∧
              events_of (MountMon self mp) env w =
              tried ++ ESleep (seconds 2) :: EPopen (mount_cmd mp) rc :: alerts'
      else
        (MountMon self mp env w).1 = Ok 2 ∧
        ∃ alerts',
          reports self 2 alerts' ∧
          events_of (MountMon self mp) env w = tried ++ alerts'
  else
    (MountMon self mp env w).1 = Ok 2 ∧
    files (MountMon self mp env w).2 = files w ∧
    ∃ alerts,
      reports self 2 alerts ∧
      events_of (MountMon self mp) env w =
      EIsMount mp true :: EListDir mp false :: alerts.
Proof.
  intros Hcfg Hp Hm Hl.
  pose proof (MountMon_mounted _ _ _ _ _ _ Hp Hm) as HM.
  destruct (list_check_run self mp env (extend w [EIsMount mp true]) Hcfg)
    as (evs & r & Hrun & Htr & Hhd).
  rewrite (list_check_onward_after _ _ _ _ _ _ _ _ Hrun) in HM. tidy.
  cbn in Hhd. rewrite Hl in Hhd.
  destruct Htr as [|alerts Hre Hrep|alerts cmds alerts' Hre Hrep Hcmds Hrep'
                  |alerts cmds rc alerts' Hre Hrep Hcmds Hrc Hrep'
                  |alerts cmds Hre Hrep Hcmds]; try done; rewrite Hre.
  - rewrite (events_of_run _ _ _ _ _ _ HM eq_refl), HM. eauto.
  - exists alerts, cmds, false. split; [done|]. split; [done|]. cbn zeta.
    rewrite (events_of_run _ _ _ _ _ _ HM eq_refl), HM.
    split; [done|]. exists alerts'. split; [done|]. cbn. by flat.
  - exists alerts, cmds, true. split; [done|]. split; [done|]. cbn zeta.
    exists rc. rewrite Hrc.
    rewrite (events_of_run _ _ _ _ _ _ HM eq_refl), HM.
    split; [done|]. exists alerts'. split; [done|]. cbn. by flat.
  - exists alerts, cmds, true. split; [done|]. split; [done|]. cbn zeta.
    exists (Some 0). cbn [succeeded Z.eqb]. rewrite HM. cbn. by flat.
Qed.

Lemma list_check_listed self mp env w :
  env_listdir env (past w) mp = true →
  list_check self mp env w = (Ok None, extend w [EListDir mp true]).
Proof.
  intros Hl. unfold list_check, try_except, mbind, M_bind, os_listdir.
  cbn. by rewrite Hl.
Qed.

Lemma MountMon_listed self mp checkdir checkfile env w :
  paths_of self mp = Some (checkdir, checkfile) →
  env_ismount env (past w) mp = true →
  env_listdir env (past w ++ [EIsMount mp true]) mp = true →
  MountMon self mp env w =
  file_check_onward self mp checkdir checkfile env
    (extend w [EIsMount mp true; EListDir mp true]).
Proof.
  intros Hp Hm Hl. rewrite (MountMon_mounted _ _ _ _ _ _ Hp Hm).
  rewrite (list_check_onward_after _ _ _ _ _ _ [EListDir mp true] None).
  - by tidy.
  - by apply list_check_listed.
Qed.

Lemma reports_elem self v alerts e :
  reports self v alerts → e ∈ alerts → is_report e = true.
Proof. intros [Hrep _] He. by eapply Forall_forall in Hrep. Qed.

(** Take apart the hypotheses that place an event in a history. *)
Ltac mem_inv :=
  repeat match goal with
  | H : _ ∈ [] |- _ => by apply elem_of_nil in H
  | H : _ ∈ _ :: _ |- _ =>
      let H' := fresh in
      apply elem_of_cons in H as [H'|H']; [try discriminate H'|]
  | H : _ ∈ _ ++ _ |- _ =>
      let H' := fresh in apply elem_of_app in H as [H'|H']
  | Hrep : reports _ _ ?alerts, H : _ ∈ ?alerts |- _ =>
      apply (reports_elem _ _ _ _ Hrep) in H; discriminate H
  | H : _ ∨ _ |- _ => let H' := fresh in destruct H as [H'|H']
  | H : ∃ _, _ |- _ => let H' := fresh in destruct H as [? H']
  end.

Ltac mem := rewrite ?elem_of_app, ?elem_of_cons; eauto 10.

Lemma file_check_trace_codes self mp checkdir checkfile rest r :
  write_check_of self mp = Some true →
  file_check_trace self mp checkdir checkfile rest r →
  (EListDir checkdir false ∈ rest →
   (∃ ok, EMkdir checkdir 448 ok ∈ rest) ∧
   (default 0 r = 3 ↔ EMkdir checkdir 448 false ∈ rest)) ∧
  (EListDir checkdir true ∈ rest ∨ EMkdir checkdir 448 true ∈ rest →
   (default 0 r = 4 ↔
    EOpen checkfile false ∈ rest ∨ ∃ data, EWrite checkfile data false ∈ rest)).
Proof.
  intros Hw Htr.
  destruct Htr as [Hno|evs v Hyes Hdir|evs evs' r Hyes Hdir Hfile];
    [congruence| |].
  - inversion Hdir as [| |alerts Hrep]; subst; cbn. split.
    + intros _. split; [eexists; mem | split; [mem | done]].
    + intros H. mem_inv.
  - inversion Hdir; subst;
      inversion Hfile as [stamp|alerts Hrep|stamp alerts Hrep]; subst; cbn.
    all: split; [intros Hin|intros _].
    all: try (exfalso; by mem_inv).
    all: try (split; [eexists; mem|]).
    all: split; intros Hgoal; try done; try (by mem_inv); try (by mem).
    all: right; eexists; mem.
Qed.

Lemma Error_run_logged self output v env w :
  can_alert self = true →
  ∃ alerts,
    Error self output v env w = (Ok (), extend w alerts) ∧
    reports self v alerts ∧ last alerts = Some (ELog ERROR output).
Proof.
  unfold can_alert, Error, reports. intros [Hlog Hz]%andb_true_iff.
  unfold mbind, M_bind. destruct (zabbix (cfg self)).
  - apply bool_decide_eq_true in Hz.
    destruct (ZabbixSend_run self v "" env w Hlog Hz) as (alerts & -> & Hrep & Hval).
    rewrite (logger_log_run _ _ _ _ _ Hlog), extend_extend.
    eexists; split; [reflexivity|]. split; [split|].
    + apply Forall_app; split; [done | by repeat constructor].
    + by rewrite zabbix_values_app, Hval.
    + apply last_snoc.
  - cbn. rewrite (logger_log_run _ _ _ _ _ Hlog).
    eexists; split; [reflexivity|]. split; [split|]; by repeat constructor.
Qed.

Ltac step_Error_logged Hcfg alerts Hrep Hlast :=
  match goal with
  | |- context [Error ?s ?m ?v ?e ?w'] =>
      destruct (Error_run_logged s m v e w' Hcfg) as (alerts & -> & Hrep & Hlast);
      tidy
  end.

Lemma file_check_cases self mp checkdir checkfile env w :
  can_alert self = true →
  write_check_of self mp = Some true →
  let h := past w in
  let created :=
    [EListDir checkdir false; EMkdir checkdir 448 true;
     ELog WARNING ("Created monitor directory " +:+ checkdir)] in
  let dir := if env_listdir env h checkdir then [EListDir checkdir true]
             else created in
  let stamp := env_ctime env (h ++ dir ++ [EOpen checkfile true]) in
  let line := stamp +:+ newline in
  let no_dir :=
    "Dir " +:+ mp +:+ " does not exist and could not create it." in
  let no_write := "Could not write file: " +:+ checkfile in
  ∃ r rest w',
    file_check self mp checkdir checkfile env w = (Ok r, w') ∧
    past w' = h ++ rest ∧
    if negb (env_listdir env h checkdir)
       && negb (env_mkdir env (h ++ [EListDir checkdir false]) checkdir 448)
    then
      r = Some 3 ∧ files w' = files w ∧
      ∃ alerts,
        reports self 3 alerts ∧
        last alerts = Some (ELog ERROR no_dir) ∧
        rest = EListDir checkdir false :: EMkdir checkdir 448 false :: alerts
    else if negb (env_open env (h ++ dir) checkfile) then
      r = Some 4 ∧ files w' = files w ∧
      ∃ alerts,
        reports self 4 alerts ∧
        last alerts = Some (ELog ERROR no_write) ∧
        rest = dir ++ EOpen checkfile false :: alerts
    else if env_write env (h ++ dir ++ [EOpen checkfile true; ECtime stamp])
              checkfile line
    then
      r = None ∧ files w' = <[checkfile := line]> (files w) ∧
      rest = dir ++ [EOpen checkfile true; ECtime stamp;
                     EWrite checkfile line true]
    else
      r = Some 4 ∧ files w' = <[checkfile := ""]> (files w) ∧
      ∃ alerts,
        reports self 4 alerts ∧
        last alerts = Some (ELog ERROR no_write) ∧
        rest = dir ++ EOpen checkfile true :: ECtime stamp
               :: EWrite checkfile line false :: alerts.
Proof.
  intros Hcfg Hb h created dir stamp line no_dir no_write.
  pose proof Hcfg as [Hlog _]%andb_true_iff.
  unfold file_check, mbind at 1, M_bind at 1.
  destruct (mountpoint_opt_write_check _ _ _ env w Hb) as (b & -> & ->).
  assert (∀ w1 : World,
            files w1 = files w → past w1 = h ++ dir →
            ∃ r rest w',
              write_file self checkfile env w1 = (Ok r, w') ∧
              past w' = h ++ rest ∧
              if negb (env_open env (h ++ dir) checkfile) then
                r = Some 4 ∧ files w' = files w ∧
                ∃ alerts,
                  reports self 4 alerts ∧
                  last alerts = Some (ELog ERROR no_write) ∧
                  rest = dir ++ EOpen checkfile false :: alerts
              else if env_write env
                        (h ++ dir ++ [EOpen checkfile true; ECtime stamp])
                        checkfile line
              then
                r = None ∧ files w' = <[checkfile := line]> (files w) ∧
                rest = dir ++ [EOpen checkfile true; ECtime stamp;
                               EWrite checkfile line true]
              else
                r = Some 4 ∧ files w' = <[checkfile := ""]> (files w) ∧
                ∃ alerts,
                  reports self 4 alerts ∧
                  last alerts = Some (ELog ERROR no_write) ∧
                  rest = dir ++ EOpen checkfile true :: ECtime stamp
                         :: EWrite checkfile line false :: alerts) as Hwrite.
  { intros w1 Hfiles Hpast.
    unfold write_file, try_except, mbind, M_bind, open_w, time_ctime, file_write.
    cbn. rewrite Hpast.
    destruct (env_open env (h ++ dir) checkfile); cbn.
    - rewrite Hpast. flat. fold stamp. fold line.
      destruct (env_write _ _ _ _); cbn.
      + eexists _, _, _. split; [reflexivity|]. cbn. rewrite Hpast. flat.
        split; [reflexivity|]. split; [done|]. split; [|done].
        rewrite Hfiles. apply insert_insert_eq.
      + step_Error_logged Hcfg alerts Hrep Hlast.
        eexists _, _, _. split; [reflexivity|]. cbn. rewrite Hpast. flat.
        split; [reflexivity|]. split; [done|]. split; [by rewrite Hfiles|].
        by exists alerts.
    - step_Error_logged Hcfg alerts Hrep Hlast.
      eexists _, _, _. split; [reflexivity|]. cbn. rewrite Hpast. flat.
      split; [reflexivity|]. split; [done|]. split; [done|]. by exists alerts. }
  unfold mbind at 1, M_bind at 1.
  unfold checkdir_check, try_except, mbind at 1, M_bind at 1, os_listdir.
  cbn. fold h. subst dir.
  destruct (env_listdir env h checkdir); cbn.
  { destruct (Hwrite (record_event (EListDir checkdir true) w) eq_refl eq_refl)
      as (r & rest & w' & Hrun & Hrest).
    by exists r, rest, w'. }
  unfold mbind, M_bind, os_mkdir. cbn. fold h.
  destruct (env_mkdir env (h ++ [EListDir checkdir false]) checkdir 448); cbn.
  - rewrite (logger_log_run _ _ _ _ _ Hlog). cbn. tidy.
    destruct (Hwrite (extend w created)) as (r & rest & w' & Hrun & Hrest);
      [done|done|].
    by exists r, rest, w'.
  - step_Error_logged Hcfg alerts Hrep Hlast.
    eexists _, _, _. split; [reflexivity|]. cbn. flat.
    split; [reflexivity|]. split; [done|]. split; [done|]. by exists alerts.
Qed.

(** C4: in the file check of a mounted, listable mountpoint with
    [write_check] on, [MountMon] lists the checkdir.  When that fails it calls
    [mkdir] with mode 0700, and returns 3 exactly when that fails too, after
    reporting 3 and without touching the checkfile.  Once the checkdir is
    there, it opens the checkfile for writing and writes the answer of
    [time.ctime()] and a newline to it; it returns 4, after reporting 4,
    exactly when the open or the write fails, and 0 otherwise, with that line
    as the content of the checkfile.  What the oracle answers decides the
    whole history of the call. *)
Theorem MountMon_write_check self mp checkdir checkfile env w :
  can_alert self = true →
  paths_of self mp = Some (checkdir, checkfile) →
  write_check_of self mp = Some true →
  env_ismount env (past w) mp = true →
  env_listdir env (past w ++ [EIsMount mp true]) mp = true →
  ∃ v rest,
    (MountMon self mp env w).1 = Ok v ∧
    events_of (MountMon self mp) env w =
    EIsMount mp true :: EListDir mp true :: rest ∧
    (EListDir checkdir false ∈ rest →
     (∃ ok, EMkdir checkdir 448 ok ∈ rest) ∧
     (v = 3 ↔ EMkdir checkdir 448 false ∈ rest)) ∧
    (EListDir checkdir true ∈ rest ∨ EMkdir checkdir 448 true ∈ rest →
     (v = 4 ↔
      EOpen checkfile false ∈ rest ∨ ∃ data, EWrite checkfile data false ∈ rest)) ∧
    let h := past w ++ [EIsMount mp true; EListDir mp true] in
    let created :=
      [EListDir checkdir false; EMkdir checkdir 448 true;
       ELog WARNING ("Created monitor directory " +:+ checkdir)] in
    let dir := if env_listdir env h checkdir then [EListDir checkdir true]
               else created in
    let stamp := env_ctime env (h ++ dir ++ [EOpen checkfile true]) in
    let line := stamp +:+ newline in
    let no_dir :=
      "Dir " +:+ mp +:+ " does not exist and could not create it." in
    let no_write := "Could not write file: " +:+ checkfile in
    let after := files (MountMon self mp env w).2 in
    if negb (env_listdir env h checkdir)
       && negb (env_mkdir env (h ++ [EListDir checkdir false]) checkdir 448)
    then
      v = 3 ∧ after = files w ∧
      ∃ alerts,
        reports self 3 alerts ∧
        last alerts = Some (ELog ERROR no_dir) ∧
        rest = EListDir checkdir false :: EMkdir checkdir 448 false :: alerts
    else if negb (env_open env (h ++ dir) checkfile) then
      v = 4 ∧ after = files w ∧
      ∃ alerts,
        reports self 4 alerts ∧
        last alerts = Some (ELog ERROR no_write) ∧
        rest = dir ++ EOpen checkfile false :: alerts
    else if env_write env (h ++ dir ++ [EOpen checkfile true; ECtime stamp])
              checkfile line
    then
      v = 0 ∧ after = <[checkfile := line]> (files w) ∧
      rest = dir ++ [EOpen checkfile true; ECtime stamp;
                     EWrite checkfile line true]
    else
      v = 4 ∧ after = <[checkfile := ""]> (files w) ∧
      ∃ alerts,
        reports self 4 alerts ∧
        last alerts = Some (ELog ERROR no_write) ∧
        rest = dir ++ EOpen checkfile true :: ECtime stamp
               :: EWrite checkfile line false :: alerts.
Proof.
  intros Hcfg Hp Hw Hm Hl.
  pose proof (MountMon_listed _ _ _ _ _ _ Hp Hm Hl) as HM.
  destruct (file_check_run self mp checkdir checkfile env
              (extend w [EIsMount mp true; EListDir mp true]) Hcfg
              (mk_is_Some _ _ Hw))
    as (rest & r & w' & Hrun & Hw' & Htr).
  destruct (file_check_cases self mp checkdir checkfile env
              (extend w [EIsMount mp true; EListDir mp true]) Hcfg Hw)
    as (r' & rest' & w'' & Hrun' & Hw'' & Hcases).
  rewrite Hrun in Hrun'. injection Hrun' as <- <-.
  rewrite Hw' in Hw''. apply app_inv_head in Hw'' as <-.
  rewrite (file_check_onward_after _ _ _ _ _ _ _ _ Hrun) in HM.
  cbn in Hw'. flat.
  exists (default 0 r), rest.
  rewrite (events_of_run _ _ _ _ _ _ HM Hw'), HM.
  split; [done|]. split; [done|].
  destruct (file_check_trace_codes _ _ _ _ _ _ Hw Htr) as [Hdir Hfile].
  split; [done|]. split; [done|].
  cbn -[negb andb] in Hcases |- *. flat.
  repeat case_match; destruct Hcases as (-> & ? & ?); done.
Qed.

(** *** Codes *)

Lemma file_check_trace_code self mp checkdir checkfile evs v :
  file_check_trace self mp checkdir checkfile evs (Some v) → v = 3 ∨ v = 4.
Proof.
  inversion 1; subst;
    match goal with
    | H : checkdir_trace _ _ _ (Some _) |- _ => inversion H
    | H : write_file_trace _ _ _ (Some _) |- _ => inversion H
    end; auto.
Qed.

Lemma MountMon_trace_code self mp checkdir checkfile evs v :
  MountMon_trace self mp checkdir checkfile evs v → 0 ≤ v ≤ 4.
Proof.
  intros [evs1 v' H1|evs1 evs2 v' _ H2|evs1 evs2 evs3 v' _ _ H3|]; [| | |lia].
  - inversion H1; lia.
  - inversion H2; lia.
  - apply file_check_trace_code in H3. lia.
Qed.

(** *** Alerts *)

Lemma reports_values self v alerts :
  zabbix (cfg self) = true → reports self v alerts → zabbix_values alerts = [v].
Proof. intros Hz [_ Hv]. by rewrite Hz in Hv. Qed.

Lemma Umount_trace_values mp cmds b :
  Umount_trace mp cmds b → zabbix_values cmds = [].
Proof. by intros []. Qed.

Ltac values Hz :=
  repeat match goal with
  | H : reports _ _ _ |- _ => apply (reports_values _ _ _ Hz) in H
  | H : Umount_trace _ _ _ |- _ => apply Umount_trace_values in H
  end;
  cbn [zabbix_values];
  repeat (rewrite zabbix_values_app; cbn [zabbix_values]);
  repeat match goal with H : zabbix_values _ = _ |- _ => rewrite H end.

(** *** The healthy run *)

Lemma healthy_from_extend env w mp checkdir checkfile w' evs :
  healthy_from env w mp checkdir checkfile →
  past w' = past w ++ evs →
  healthy_from env w' mp checkdir checkfile.
Proof.
  intros Hh Hw' evs'. rewrite Hw', <- app_assoc. apply Hh.
Qed.

Lemma healthy_from_now env w mp checkdir checkfile :
  healthy_from env w mp checkdir checkfile →
  env_ismount env (past w) mp = true ∧
  env_listdir env (past w) mp = true ∧
  env_listdir env (past w) checkdir = true ∧
  env_open env (past w) checkfile = true ∧
  ∀ data, env_write env (past w) checkfile data = true.
Proof. intros Hh. specialize (Hh []). by rewrite app_nil_r in Hh. Qed.

Lemma file_check_healthy self mp checkdir checkfile env w :
  write_check_of self mp = Some true →
  healthy_from env w mp checkdir checkfile →
  ∃ stamp,
    file_check self mp checkdir checkfile env w =
    (Ok None,
     {| files := <[checkfile := stamp +:+ newline]> (files w);
        past := past w ++ [EListDir checkdir true; EOpen checkfile true;
                           ECtime stamp;
                           EWrite checkfile (stamp +:+ newline) true] |}).
Proof.
  intros Hw Hh. unfold file_check, mbind, M_bind.
  destruct (mountpoint_opt_write_check _ _ _ env w Hw) as (v & -> & ->).
  cbn beta iota.
  unfold checkdir_check, write_file, try_except, mbind, M_bind, os_listdir,
    open_w, time_ctime, file_write.
  cbn.
  destruct (healthy_from_now _ _ _ _ _ Hh) as (_ & _ & -> & _). cbn.
  destruct (Hh [EListDir checkdir true]) as (_ & _ & _ & -> & _). cbn.
  flat.
  destruct (Hh [EListDir checkdir true; EOpen checkfile true; ECtime
    (env_ctime env (past w ++ [EListDir checkdir true; EOpen checkfile true]))])
    as (_ & _ & _ & _ & ->).
  eexists. unfold set_file. cbn. flat. by rewrite insert_insert_eq.
Qed.

Lemma MountMon_healthy_run self mp checkdir checkfile env w :
  paths_of self mp = Some (checkdir, checkfile) →
  write_check_of self mp = Some true →
  healthy_from env w mp checkdir checkfile →
  ∃ stamp,
    MountMon self mp env w =
    (Ok 0,
     {| files := <[checkfile := stamp +:+ newline]> (files w);
        past := past w ++ healthy_events mp checkdir checkfile stamp |}).
Proof.
  intros Hp Hw Hh.
  destruct (healthy_from_now _ _ _ _ _ Hh) as (Hm & _).
  destruct (Hh [EIsMount mp true]) as (_ & Hl & _).
  rewrite (MountMon_listed _ _ _ _ _ _ Hp Hm Hl).
  destruct (file_check_healthy self mp checkdir checkfile env
              (extend w [EIsMount mp true; EListDir mp true]) Hw)
    as (stamp & Hrun).
  { by eapply healthy_from_extend. }
  rewrite (file_check_onward_after _ _ _ _ _ _ _ _ Hrun).
  exists stamp. cbn. by flat.
Qed.

(** C1: for a mounted, listable mountpoint with [write_check] on, an
    existing checkdir and a writable checkfile, [MountMon] returns 0, and
    afterwards the checkfile holds the answer of [time.ctime()] of this call
    followed by a newline, whatever it held before. *)
Theorem MountMon_healthy self mp checkdir checkfile env w :
  paths_of self mp = Some (checkdir, checkfile) →
  write_check_of self mp = Some true →
  healthy_from env w mp checkdir checkfile →
  ∃ stamp,
    (MountMon self mp env w).1 = Ok 0 ∧
    events_of (MountMon self mp) env w =
    healthy_events mp checkdir checkfile stamp ∧
    files (MountMon self mp env w).2 =
    <[checkfile := stamp +:+ newline]> (files w).
Proof.
  intros Hp Hw Hh.
  destruct (MountMon_healthy_run _ _ _ _ _ _ Hp Hw Hh) as (stamp & Hrun).
  exists stamp. by rewrite (events_of_run _ _ _ _ _ _ Hrun eq_refl), Hrun.
Qed.

(** C9: two checks in a row under the same healthy conditions both return
    0; the second one writes the checkfile again, which then holds the time
    stamp of the second call. *)
Theorem MountMon_twice self mp checkdir checkfile env w :
  paths_of self mp = Some (checkdir, checkfile) →
  write_check_of self mp = Some true →
  healthy_from env w mp checkdir checkfile →
  let first := MountMon self mp env w in
  let second := MountMon self mp env first.2 in
  ∃ stamp1 stamp2,
    first.1 = Ok 0 ∧
    files first.2 !! checkfile = Some (stamp1 +:+ newline) ∧
    second.1 = Ok 0 ∧
    events_of (MountMon self mp) env first.2 =
    healthy_events mp checkdir checkfile stamp2 ∧
    files second.2 !! checkfile = Some (stamp2 +:+ newline).
Proof.
  intros Hp Hw Hh first second. subst first second.
  destruct (MountMon_healthy_run _ _ _ _ _ _ Hp Hw Hh) as (stamp1 & Hrun1).
  rewrite Hrun1. cbn [fst snd].
  match goal with |- context [MountMon self mp env ?w1] =>
    destruct (MountMon_healthy_run self mp checkdir checkfile env w1 Hp Hw)
      as (stamp2 & Hrun2); [by eapply healthy_from_extend|]
  end.
  exists stamp1, stamp2.
  rewrite (events_of_run _ _ _ _ _ _ Hrun2 eq_refl), Hrun2. cbn.
  by rewrite !lookup_insert_eq.
Qed.

(** On a configuration with a logger, with the three options of the
    mountpoint and with a Zabbix address when Zabbix is on, no failure of an
    operation of the model makes [MountMon] raise: it returns a code from 0 to
    4.  [RunCommand] raises nothing on any command in any world: it returns
    whether the process exited with status 0, which is [False] when it could
    not be started. *)
Lemma MountMon_returns_code self mp env w :
  well_configured self mp = true →
  (∃ v, (MountMon self mp env w).1 = Ok v ∧ 0 ≤ v ≤ 4) ∧
  (∀ cmd env' w',
     (RunCommand cmd env' w').1 = Ok (succeeded (env_popen env' (past w') cmd))).
Proof.
  intros Hcfg. split.
  - pose proof Hcfg as (_ & [[checkdir checkfile] Hp] & _)%well_configured_inv.
    destruct (MountMon_run _ _ _ _ env w Hcfg Hp) as (evs & v & w' & -> & _ & Htr).
    exists v. split; [done|]. by eapply MountMon_trace_code.
  - intros cmd env' w'. by rewrite RunCommand_run.
Qed.

(** C5: an exception does escape [MountMon].  When Zabbix is switched on and
    the configuration has no [zabbix_address], the one key that [__init__]
    gives no default, every call of [Error] raises [KeyError] before anything
    is sent or logged: [ZabbixSend] looks the address up outside its [try].
    So the check of a mountpoint that is not mounted raises instead of
    returning 1, and [MainLoop], which catches [KeyboardInterrupt] only, ends
    with that exception in its first turn. *)
Theorem MountMon_raises_KeyError self mp checkdir checkfile env w :
  zabbix (cfg self) = true →
  zabbix_address (cfg self) = None →
  paths_of self mp = Some (checkdir, checkfile) →
  (∀ output v env' w',
     Error self output v env' w' = (Raise (KeyError "zabbix_address"), w')) ∧
  (env_ismount env (past w) mp = false →
   MountMon self mp env w
   = (Raise (KeyError "zabbix_address"), extend w [EIsMount mp false])) ∧
  (∀ turns d more,
     mountpoints (cfg self) = (mp, d) :: more →
     let start := env_time env (past w) in
     env_ismount env (past w ++ [ETime start]) mp = false →
     MainLoop (S turns) self env w
     = (Raise (KeyError "zabbix_address"),
        extend w [ETime start; EIsMount mp false])).
Proof.
  intros Hz Ha Hp.
  assert (∀ output v env' w',
            Error self output v env' w'
            = (Raise (KeyError "zabbix_address"), w')) as Herr.
  { intros output v env' w'.
    unfold Error, ZabbixSend, mbind, M_bind. by rewrite Hz, Ha. }
  assert (∀ w1, env_ismount env (past w1) mp = false →
            MountMon self mp env w1
            = (Raise (KeyError "zabbix_address"), extend w1 [EIsMount mp false]))
    as Hcheck.
  { intros w1 Hm. rewrite (MountMon_paths _ _ _ _ _ _ Hp).
    unfold or_return, mountpoint_check, mbind, M_bind, os_path_ismount.
    cbn. rewrite Hm. cbn.
    destruct (remount (cfg self)); unfold mbind, M_bind; by rewrite Herr. }
  split; [done|]. split; [by apply Hcheck|].
  intros turns d more Hmps start Hm.
  unfold MainLoop, mbind at 1, M_bind at 1, time_time. cbn. fold start.
  unfold mbind at 1, M_bind at 1, MainLoop_turn, try_except.
  rewrite Hmps. cbn [fmap list_fmap fst for_each].
  unfold mbind at 1, M_bind at 1. unfold mbind at 1, M_bind at 1.
  unfold loop_body, mbind at 1, M_bind at 1.
  rewrite Hcheck by done. cbn. by tidy.
Qed.

(** The check of an unmounted mountpoint ends with a [KeyError] when Zabbix
    is switched on and no address is configured, and when the mountpoint has
    no [checkdir]; it ends with an [AttributeError] when logging was not set
    up. *)
Lemma MountMon_raises_examples :
  (MountMon no_address "/mymount" unmounted_env empty_world).1
  = Raise (KeyError "zabbix_address") ∧
  (MountMon bare_entry "/mnt" unmounted_env empty_world).1
  = Raise (KeyError "checkdir") ∧
  (MountMon unlogged "/mymount" unmounted_env empty_world).1
  = Raise (AttributeError "logger").
Proof. vm_compute. done. Qed.

(** *** The alerts of the recovery attempts *)

Lemma unmounted_seen_app mp evs evs' :
  unmounted_seen mp (evs ++ evs') = unmounted_seen mp evs || unmounted_seen mp evs'.
Proof. apply existsb_app. Qed.

Lemma stale_seen_app mp evs evs' :
  stale_seen mp (evs ++ evs') = stale_seen mp evs || stale_seen mp evs'.
Proof. apply existsb_app. Qed.

Lemma reports_quiet self v alerts mp :
  reports self v alerts →
  unmounted_seen mp alerts = false ∧ stale_seen mp alerts = false.
Proof.
  intros [Hrep _]. induction Hrep as [|e alerts He _ [IH1 IH2]]; [done|].
  unfold unmounted_seen, stale_seen in *. cbn. rewrite IH1, IH2.
  by destruct e.
Qed.

Lemma Umount_trace_quiet mp cmds b mp' :
  Umount_trace mp cmds b →
  unmounted_seen mp' cmds = false ∧ stale_seen mp' cmds = false.
Proof. by intros []. Qed.

(** A path below [mp] is not [mp]. *)
Lemma append_neq mp s : s ≠ "" → mp +:+ s ≠ mp.
Proof.
  intros Hs. induction mp as [|a mp IH]; unfold String.append;
    fold String.append; [done|].
  intros [= H]. by apply IH.
Qed.

Lemma paths_of_below self mp checkdir checkfile :
  paths_of self mp = Some (checkdir, checkfile) → String.eqb checkdir mp = false.
Proof.
  unfold paths_of. intros H.
  destruct (assoc mp (mountpoints (cfg self))) as [d|]; [|done]. cbn in H.
  destruct (d !! "checkdir") as [c|]; [|done]. cbn in H.
  destruct (d !! "checkfile") as [f|]; [|done]. cbn in H.
  injection H as <- _. apply String.eqb_neq, append_neq.
  unfold String.append. done.
Qed.

(** Collect what the histories of the parts say about the two queries. *)
Ltac quiet mp :=
  repeat match goal with
  | H : reports _ _ ?alerts |- _ =>
      lazymatch goal with
      | _ : unmounted_seen mp alerts = false |- _ => fail
      | _ => destruct (reports_quiet _ _ _ mp H)
      end
  | H : Umount_trace _ ?cmds _ |- _ =>
      lazymatch goal with
      | _ : unmounted_seen mp cmds = false |- _ => fail
      | _ => destruct (Umount_trace_quiet _ _ _ mp H)
      end
  end.

Ltac seen :=
  repeat first
    [ rewrite unmounted_seen_app | rewrite stale_seen_app
    | match goal with
      | H : unmounted_seen _ _ = _ |- _ => rewrite H
      | H : stale_seen _ _ = _ |- _ => rewrite H
      end ];
  cbn [unmounted_seen stale_seen existsb orb]; rewrite ?String.eqb_refl;
  cbn [orb].

Lemma mountpoint_check_sent self mp evs r :
  zabbix (cfg self) = true →
  mountpoint_check_trace self mp evs r →
  zabbix_values evs =
    (if remount (cfg self) && unmounted_seen mp evs then [1] else [])
    ++ option_list r ∧
  stale_seen mp evs = false.
Proof.
  intros Hz [|alerts Hre Hrep|alerts rc alerts' Hre Hrep Hrc Hrep'
            |alerts Hre Hrep]; quiet mp; values Hz; rewrite ?Hre.
  all: unfold unmounted_seen, stale_seen in *; cbn [existsb];
    rewrite ?existsb_app; cbn [existsb]; rewrite ?String.eqb_refl.
  all: repeat match goal with H : existsb _ _ = _ |- _ => rewrite H end.
  all: cbn; rewrite ?andb_false_r; done.
Qed.

Lemma list_check_sent self mp evs r :
  zabbix (cfg self) = true →
  list_check_trace self mp evs r →
  zabbix_values evs =
    (if remount (cfg self) && stale_seen mp evs then [2] else [])
    ++ option_list r ∧
  unmounted_seen mp evs = false.
Proof.
  intros Hz [|alerts Hre Hrep|alerts cmds alerts' Hre Hrep Hcmds Hrep'
            |alerts cmds rc alerts' Hre Hrep Hcmds Hrc Hrep'
            |alerts cmds Hre Hrep Hcmds]; quiet mp; values Hz; rewrite ?Hre.
  all: unfold unmounted_seen, stale_seen in *; cbn [existsb];
    rewrite ?existsb_app; cbn [existsb]; rewrite ?existsb_app; cbn [existsb];
    rewrite ?String.eqb_refl.
  all: repeat match goal with H : existsb _ _ = _ |- _ => rewrite H end.
  all: cbn; rewrite ?andb_false_r; done.
Qed.

Lemma file_check_sent self mp checkdir checkfile evs r :
  zabbix (cfg self) = true →
  String.eqb checkdir mp = false →
  file_check_trace self mp checkdir checkfile evs r →
  zabbix_values evs = option_list r ∧
  unmounted_seen mp evs = false ∧ stale_seen mp evs = false.
Proof.
  intros Hz Hcd [Hno|evs' v Hyes Hdir|evs1 evs2 r' Hyes Hdir Hfile].
  - done.
  - inversion Hdir; subst. quiet mp. values Hz.
    unfold unmounted_seen, stale_seen in *. cbn [existsb]. rewrite Hcd.
    repeat match goal with H : existsb _ _ = _ |- _ => rewrite H end. done.
  - inversion Hdir; subst; inversion Hfile; subst; quiet mp; values Hz.
    all: unfold unmounted_seen, stale_seen in *; cbn [existsb app];
      rewrite ?Hcd.
    all: repeat match goal with H : existsb _ _ = _ |- _ => rewrite H end.
    all: done.
Qed.

Lemma MountMon_trace_sent self mp checkdir checkfile evs v :
  zabbix (cfg self) = true →
  String.eqb checkdir mp = false →
  MountMon_trace self mp checkdir checkfile evs v →
  zabbix_values evs =
  recovery_alerts self mp evs ++ (if v =? 0 then [] else [v]).
Proof.
  intros Hz Hcd Htr. unfold recovery_alerts.
  destruct Htr as [evs1 v H1|evs1 evs2 v H1 H2|evs1 evs2 evs3 v H1 H2 H3
                  |evs1 evs2 evs3 H1 H2 H3].
  - assert (v = 1) as -> by (inversion H1; done).
    apply (mountpoint_check_sent _ _ _ _ Hz) in H1 as [E1 S1].
    rewrite E1, S1. cbn. by destruct (remount (cfg self)), (unmounted_seen mp evs1).
  - assert (v = 2) as -> by (inversion H2; done).
    apply (mountpoint_check_sent _ _ _ _ Hz) in H1 as [E1 S1].
    apply (list_check_sent _ _ _ _ Hz) in H2 as [E2 U2].
    rewrite zabbix_values_app, E1, E2, unmounted_seen_app, stale_seen_app, S1, U2.
    cbn. rewrite orb_false_r.
    by destruct (remount (cfg self)), (unmounted_seen mp evs1),
      (stale_seen mp evs2).
  - assert (v ≠ 0) as Hv0.
    { apply file_check_trace_code in H3. lia. }
    apply (mountpoint_check_sent _ _ _ _ Hz) in H1 as [E1 S1].
    apply (list_check_sent _ _ _ _ Hz) in H2 as [E2 U2].
    apply (file_check_sent _ _ _ _ _ _ Hz Hcd) in H3 as (E3 & U3 & S3).
    rewrite !zabbix_values_app, E1, E2, E3, !unmounted_seen_app,
      !stale_seen_app, S1, U2, U3, S3.
    apply Z.eqb_neq in Hv0 as ->. cbn. rewrite !orb_false_r.
    by destruct (remount (cfg self)), (unmounted_seen mp evs1),
      (stale_seen mp evs2).
  - apply (mountpoint_check_sent _ _ _ _ Hz) in H1 as [E1 S1].
    apply (list_check_sent _ _ _ _ Hz) in H2 as [E2 U2].
    apply (file_check_sent _ _ _ _ _ _ Hz Hcd) in H3 as (E3 & U3 & S3).
    rewrite !zabbix_values_app, E1, E2, E3, !unmounted_seen_app,
      !stale_seen_app, S1, U2, U3, S3.
    cbn. rewrite !orb_false_r.
    by destruct (remount (cfg self)), (unmounted_seen mp evs1),
      (stale_seen mp evs2).
Qed.

Lemma mountpoint_check_unmounted self mp evs r :
  mountpoint_check_trace self mp evs r →
  ∃ b rest, evs = EIsMount mp b :: rest ∧ unmounted_seen mp evs = negb b.
Proof.
  intros [|alerts Hre Hrep|alerts rc alerts' Hre Hrep Hrc Hrep'
         |alerts Hre Hrep]; quiet mp; eexists _, _; (split; [reflexivity|]).
  all: unfold unmounted_seen in *; cbn [existsb];
    rewrite ?existsb_app; cbn [existsb]; rewrite ?String.eqb_refl.
  all: repeat match goal with H : existsb _ _ = _ |- _ => rewrite H end.
  all: done.
Qed.

Lemma MountMon_trace_unmounted self mp checkdir checkfile evs v :
  zabbix (cfg self) = true →
  String.eqb checkdir mp = false →
  MountMon_trace self mp checkdir checkfile evs v →
  ∃ b rest, evs = EIsMount mp b :: rest ∧ unmounted_seen mp evs = negb b.
Proof.
  intros Hz Hcd Htr.
  destruct Htr as [evs1 v H1|evs1 evs2 v H1 H2|evs1 evs2 evs3 v H1 H2 H3
                  |evs1 evs2 evs3 H1 H2 H3].
  all: destruct (mountpoint_check_unmounted _ _ _ _ H1) as (b & rest & -> & Hb).
  all: try apply (list_check_sent _ _ _ _ Hz) in H2 as [_ U2].
  all: try apply (file_check_sent _ _ _ _ _ _ Hz Hcd) in H3 as (_ & U3 & _).
  all: eexists b, _; (split; [reflexivity|]).
  all: rewrite ?unmounted_seen_app, ?U2, ?U3, ?orb_false_r; done.
Qed.

(** With remounting on, a check that finds the mountpoint unmounted and cannot
    mount it sends 1 twice, and one that mounts it sends 1 and returns 0. *)
Lemma MountMon_alerts_twice :
  ((MountMon recovering "/mymount" unmounted_env empty_world).1 = Ok 1 ∧
   zabbix_values (events_of (MountMon recovering "/mymount") unmounted_env
                    empty_world) = [1; 1]) ∧
  ((MountMon recovering "/mymount" mountable_env empty_world).1 = Ok 0 ∧
   zabbix_values (events_of (MountMon recovering "/mymount") mountable_env
                    empty_world) = [1]).
Proof. vm_compute. done. Qed.

(** *** The alphabet of a computation *)

(** [adds Q] goes through the monad when [Q] holds of the empty history and
    of the histories put together from two that satisfy it. *)
Section adds.
Context (Q : list event → Prop).
Context (Q_nil : Q []) (Q_app : ∀ evs evs', Q evs → Q evs' → Q (evs ++ evs')).

Lemma adds_ret {A} (a : A) : adds Q (mret a).
Proof using Q_nil. intros env w. exists []. by rewrite app_nil_r. Qed.

Lemma adds_bind {A B} (m : M A) (f : A → M B) :
  adds Q m → (∀ a, adds Q (f a)) → adds Q (m ≫= f).
Proof using Q_app.
  intros Hm Hf env w. unfold mbind, M_bind.
  destruct (Hm env w) as (evs & Hpast & Hevs).
  destruct (m env w) as [[a|e] w']; cbn in *.
  - destruct (Hf a env w') as (evs' & Hpast' & Hevs').
    exists (evs ++ evs'). rewrite Hpast', Hpast, app_assoc. auto.
  - by exists evs.
Qed.

Lemma adds_try {A} (body : M A) (handler : exn → M A) :
  adds Q body → (∀ e, adds Q (handler e)) → adds Q (try_except body handler).
Proof using Q_app.
  intros Hm Hf env w. unfold try_except.
  destruct (Hm env w) as (evs & Hpast & Hevs).
  destruct (body env w) as [[a|e] w']; cbn in *.
  - by exists evs.
  - destruct (Hf e env w') as (evs' & Hpast' & Hevs').
    exists (evs ++ evs'). rewrite Hpast', Hpast, app_assoc. auto.
Qed.

Lemma adds_raise {A} (e : exn) : adds Q (raise e : M A).
Proof using Q_nil. intros env w. exists []. by rewrite app_nil_r. Qed.

Lemma adds_for_each {A} (xs : list A) (body : A → M unit) :
  (∀ x, adds Q (body x)) → adds Q (for_each xs body).
Proof using Q_nil Q_app.
  intros Hbody. induction xs as [|x xs IH]; cbn.
  - apply adds_ret.
  - apply adds_bind; [apply Hbody|]. by intros _.
Qed.
End adds.

Section emits.
Context (P : event → bool).

Lemma emits_ret {A} (a : A) : emits P (mret a).
Proof. by apply adds_ret. Qed.

Lemma emits_raise {A} (e : exn) : emits P (raise e : M A).
Proof. by apply adds_raise. Qed.

Lemma emits_bind {A B} (m : M A) (f : A → M B) :
  emits P m → (∀ a, emits P (f a)) → emits P (m ≫= f).
Proof. apply adds_bind. intros evs evs' ? ?. by apply Forall_app. Qed.

Lemma emits_try {A} (body : M A) (handler : exn → M A) :
  emits P body → (∀ e, emits P (handler e)) → emits P (try_except body handler).
Proof. apply adds_try. intros evs evs' ? ?. by apply Forall_app. Qed.

Lemma emits_emit (e : event) : P e = true → emits P (emit e).
Proof. intros He env w. exists [e]. split; [done|]. by constructor. Qed.

(** A primitive that records one accepted event. *)
Lemma emits_one {A} (m : M A) :
  (∀ env w, ∃ e, past (m env w).2 = past w ++ [e] ∧ P e = true) → emits P m.
Proof.
  intros Hm env w. destruct (Hm env w) as (e & Hpast & He).
  exists [e]. split; [done|]. by constructor.
Qed.
End emits.

Lemma emits_impl {A} (P Q : event → bool) (m : M A) :
  (∀ e, P e = true → Q e = true) → emits P m → emits Q m.
Proof.
  intros HPQ Hm env w. destruct (Hm env w) as (evs & Hpast & Hevs).
  exists evs. split; [done|]. eapply Forall_impl; [exact Hevs|]. apply HPQ.
Qed.

Create HintDb emits.

#[local] Hint Resolve emits_ret emits_raise emits_bind emits_try emits_emit : emits.
#[local] Hint Extern 1 (emits _ (match ?x with _ => _ end)) => destruct x : emits.
#[local] Hint Extern 1 (emits _ (if ?x then _ else _)) => destruct x : emits.
#[local] Hint Extern 2 (_ = true) => reflexivity : emits.

(** The primitives. *)
Lemma emits_os_listdir P p :
  (∀ ok, P (EListDir p ok) = true) → emits P (os_listdir p).
Proof. intros HP. apply emits_one. intros env w. eexists. split; [reflexivity|apply HP]. Qed.

Lemma emits_os_mkdir P p mode :
  (∀ ok, P (EMkdir p mode ok) = true) → emits P (os_mkdir p mode).
Proof. intros HP. apply emits_one. intros env w. eexists. split; [reflexivity|apply HP]. Qed.

Lemma emits_open_w P p : (∀ ok, P (EOpen p ok) = true) → emits P (open_w p).
Proof.
  intros HP. apply emits_one. intros env w. unfold open_w.
  destruct (env_open env (past w) p); eexists; (split; [reflexivity|apply HP]).
Qed.

Lemma emits_time_ctime P : (∀ s, P (ECtime s) = true) → emits P time_ctime.
Proof. intros HP. apply emits_one. intros env w. eexists. split; [reflexivity|apply HP]. Qed.

Lemma emits_file_write P p data :
  (∀ ok, P (EWrite p data ok) = true) → emits P (file_write p data).
Proof.
  intros HP. apply emits_one. intros env w. unfold file_write.
  destruct (env_write env (past w) p data); eexists; (split; [reflexivity|apply HP]).
Qed.

Lemma emits_zbx_send P addr host key v :
  (∀ ok, P (EZabbix addr host key v ok) = true) → emits P (zbx_send addr host key v).
Proof. intros HP. apply emits_one. intros env w. eexists. split; [reflexivity|apply HP]. Qed.

Lemma emits_os_path_ismount P p :
  (∀ b, P (EIsMount p b) = true) → emits P (os_path_ismount p).
Proof. intros HP. apply emits_one. intros env w. eexists. split; [reflexivity|apply HP]. Qed.

Lemma emits_popen_wait P cmd :
  (∀ rc, P (EPopen cmd rc) = true) → emits P (popen_wait cmd).
Proof. intros HP. apply emits_one. intros env w. eexists. split; [reflexivity|apply HP]. Qed.

Lemma emits_time_sleep P d : P (ESleep d) = true → emits P (time_sleep d).
Proof.
  intros HP. unfold time_sleep. destruct (d <? 0)%float; [apply emits_raise|].
  by apply emits_emit.
Qed.

#[local] Hint Resolve emits_os_listdir emits_os_mkdir emits_open_w emits_time_ctime
  emits_file_write emits_zbx_send emits_os_path_ismount emits_popen_wait
  emits_time_sleep : emits.

Lemma emits_logger_log P self lvl msg :
  P (ELog lvl msg) = true → emits P (logger_log self lvl msg).
Proof. intros HP. unfold logger_log. eauto with emits. Qed.

Lemma emits_mountpoint_opt P self mp k : emits P (mountpoint_opt self mp k).
Proof. unfold mountpoint_opt, dict_get. eauto 10 with emits. Qed.

#[local] Hint Resolve emits_logger_log emits_mountpoint_opt : emits.

Lemma emits_Error P self output v :
  (∀ e, is_report e = true → P e = true) → emits P (Error self output v).
Proof.
  intros HP. unfold Error, ZabbixSend. eauto 20 with emits.
Qed.

#[local] Hint Resolve emits_Error : emits.

Lemma file_check_emits self mp checkdir checkfile :
  emits file_check_event (file_check self mp checkdir checkfile).
Proof.
  assert (∀ e, is_report e = true → file_check_event e = true) by (by intros []).
  unfold file_check, checkdir_check, write_file.
  eauto 30 with emits.
Qed.

Lemma RunCommand_emits cmd : emits MountMon_event (RunCommand cmd).
Proof. unfold RunCommand. eauto 10 with emits. Qed.

#[local] Hint Resolve RunCommand_emits : emits.

Lemma report_MountMon_event e : is_report e = true → MountMon_event e = true.
Proof. by destruct e. Qed.

#[local] Hint Resolve report_MountMon_event : emits.

Lemma file_check_onward_emits self mp checkdir checkfile :
  emits file_check_event (file_check_onward self mp checkdir checkfile).
Proof.
  unfold file_check_onward, or_return.
  pose proof (file_check_emits self mp checkdir checkfile).
  eauto 10 with emits.
Qed.

Lemma list_check_onward_emits self mp checkdir checkfile :
  emits MountMon_event (list_check_onward self mp checkdir checkfile).
Proof.
  assert (emits MountMon_event (file_check_onward self mp checkdir checkfile)).
  { eapply emits_impl; [|apply file_check_onward_emits]. by intros []. }
  unfold list_check_onward, or_return, list_check, Umount, Mount.
  eauto 40 with emits.
Qed.

Lemma MountMon_emits self mp : emits MountMon_event (MountMon self mp).
Proof.
  unfold MountMon, or_return, mountpoint_check, Mount.
  pose proof (list_check_onward_emits self mp).
  eauto 40 with emits.
Qed.

(** A computation only ever adds to the history of its first part. *)
Lemma bind_extends {A B} P (m : M A) (f : A → M B) env w :
  (∀ a, emits P (f a)) →
  ∃ evs, past ((m ≫= f) env w).2 = past (m env w).2 ++ evs.
Proof.
  intros Hf. unfold mbind, M_bind. destruct (m env w) as [[a|e] w']; cbn.
  - destruct (Hf a env w') as (evs & -> & _). by exists evs.
  - exists []. by rewrite app_nil_r.
Qed.

Lemma try_extends {A} P (body : M A) (handler : exn → M A) env w :
  (∀ e, emits P (handler e)) →
  ∃ evs, past (try_except body handler env w).2 = past (body env w).2 ++ evs.
Proof.
  intros Hf. unfold try_except. destruct (body env w) as [[a|e] w']; cbn.
  - exists []. by rewrite app_nil_r.
  - destruct (Hf e env w') as (evs & -> & _). by exists evs.
Qed.

Lemma MountMon_no_paths self mp env w :
  paths_of self mp = None → past (MountMon self mp env w).2 = past w.
Proof.
  unfold paths_of, MountMon, mountpoint_opt, dict_get.
  destruct (assoc mp (mountpoints (cfg self))) as [d|]; [|done]. cbn.
  destruct (d !! "checkdir") as [c|]; [|done]. cbn.
  by destruct (d !! "checkfile") as [f|].
Qed.

Lemma or_return_extends P block rest env w :
  emits P rest →
  ∃ evs, past (or_return block rest env w).2 = past (block env w).2 ++ evs.
Proof.
  intros Hrest. apply (bind_extends P). intros []; eauto with emits.
Qed.

Lemma mountpoint_check_first_event self mp env w :
  ∃ evs,
    past (mountpoint_check self mp env w).2
    = past w ++ EIsMount mp (env_ismount env (past w) mp) :: evs.
Proof.
  unfold mountpoint_check.
  match goal with |- context [mbind ?f (os_path_ismount mp)] =>
    destruct (bind_extends MountMon_event (os_path_ismount mp) f env w)
      as (evs & ->)
  end.
  { unfold Mount. eauto 40 with emits. }
  cbn. flat. eauto.
Qed.

(** Every check starts with the mount query, if it gets that far. *)
Lemma MountMon_first_event self mp env w :
  ∃ rest,
    past (MountMon self mp env w).2 = past w ++ rest ∧
    (rest = [] ∨
     ∃ rest', rest = EIsMount mp (env_ismount env (past w) mp) :: rest').
Proof.
  destruct (paths_of self mp) as [[checkdir checkfile]|] eqn:Hp.
  - rewrite (MountMon_paths _ _ _ _ _ _ Hp).
    destruct (or_return_extends MountMon_event (mountpoint_check self mp)
                (list_check_onward self mp checkdir checkfile) env w)
      as (evs & ->); [apply list_check_onward_emits|].
    destruct (mountpoint_check_first_event self mp env w) as (evs' & ->).
    flat. eauto.
  - exists []. rewrite app_nil_r. split; [|by left]. by apply MountMon_no_paths.
Qed.

Lemma list_check_first_event self mp env w :
  ∃ evs,
    past (list_check self mp env w).2
    = past w ++ EListDir mp (env_listdir env (past w) mp) :: evs.
Proof.
  unfold list_check.
  match goal with |- context [try_except ?body ?h] =>
    destruct (try_extends MountMon_event body h env w) as (evs & ->)
  end.
  { unfold Umount, Mount. eauto 40 with emits. }
  unfold mbind, M_bind, os_listdir. cbn.
  destruct (env_listdir env (past w) mp); cbn; flat; eauto.
Qed.

Lemma list_check_onward_first_event self mp checkdir checkfile env w :
  ∃ rest,
    past (list_check_onward self mp checkdir checkfile env w).2
    = past w ++ EListDir mp (env_listdir env (past w) mp) :: rest.
Proof.
  unfold list_check_onward.
  destruct (or_return_extends MountMon_event (list_check self mp)
              (file_check_onward self mp checkdir checkfile) env w)
    as (evs & ->).
  { eapply emits_impl; [|apply file_check_onward_emits]. by intros []. }
  destruct (list_check_first_event self mp env w) as (evs' & ->).
  flat. eauto.
Qed.

Lemma split_after {A} (x : A) (l pre post : list A) (e : A) :
  x :: l = pre ++ e :: post → e ≠ x → ∃ pre', pre = x :: pre' ∧ l = pre' ++ e :: post.
Proof.
  destruct pre as [|x' pre']; cbn; intros [= -> ->] ?; [done|]. eauto.
Qed.

(** C10: when the mountpoint is mounted and can be listed, [MountMon] starts
    no process, whatever the configuration says about remounting; and every
    process it ever starts comes after a mount query or a listing of the
    mountpoint that failed. *)
Theorem commands_need_failure self mp env w :
  (env_ismount env (past w) mp = true →
   env_listdir env (past w ++ [EIsMount mp true]) mp = true →
   Forall (λ e, is_command e = false) (events_of (MountMon self mp) env w)) ∧
  (∀ pre e post,
     events_of (MountMon self mp) env w = pre ++ e :: post →
     is_command e = true →
     EIsMount mp false ∈ pre ∨ EListDir mp false ∈ pre).
Proof.
  destruct (paths_of self mp) as [[checkdir checkfile]|] eqn:Hp; cycle 1.
  { apply MountMon_no_paths with (env := env) (w := w) in Hp.
    rewrite (events_of_past _ _ _ [])  by (by rewrite app_nil_r).
    split; [by constructor|]. by intros [] ? ? [=]. }
  destruct (env_ismount env (past w) mp) eqn:Hm.
  - pose proof (MountMon_mounted _ _ _ _ _ _ Hp Hm) as HM.
    destruct (env_listdir env (past w ++ [EIsMount mp true]) mp) eqn:Hl.
    + clear HM. pose proof (MountMon_listed _ _ _ _ _ _ Hp Hm Hl) as HM.
      destruct (file_check_onward_emits self mp checkdir checkfile env
                  (extend w [EIsMount mp true; EListDir mp true]))
        as (evs & Hpast & Hevs).
      rewrite <- HM in Hpast. cbn in Hpast. flat.
      rewrite (events_of_past _ _ _ _ Hpast).
      assert (Forall (λ e, is_command e = false)
                (EIsMount mp true :: EListDir mp true :: evs)) as Hno.
      { do 2 (constructor; [done|]).
        eapply Forall_impl; [exact Hevs|]. by intros []. }
      split; [done|]. intros pre e post Hsplit He. rewrite Hsplit in Hno.
      apply Forall_app in Hno as [_ Hno]. apply Forall_cons in Hno as [Hno _].
      congruence.
    + destruct (list_check_onward_first_event self mp checkdir checkfile env
                  (extend w [EIsMount mp true])) as (rest & Hpast).
      rewrite <- HM in Hpast. cbn in Hpast. rewrite Hl in Hpast. flat.
      rewrite (events_of_past _ _ _ _ Hpast).
      split; [done|]. intros pre e post Hsplit He.
      apply split_after in Hsplit as (pre' & -> & Hsplit);
        [|by intros ->].
      apply split_after in Hsplit as (pre'' & -> & Hsplit);
        [|by intros ->].
      right. mem.
  - destruct (MountMon_first_event self mp env w) as (rest & Hpast & Hrest).
    rewrite (events_of_past _ _ _ _ Hpast).
    split; [done|]. intros pre e post Hsplit He.
    destruct Hrest as [->|[rest' ->]]; [by destruct pre|].
    rewrite Hm in Hsplit.
    apply split_after in Hsplit as (pre' & -> & Hsplit);
      [|by intros ->].
    left. mem.
Qed.

(** C7, as amended: with Zabbix on, the values that one check sends are the
    alerts of its recovery attempts followed by the returned code when that is
    not 0, and by nothing when it is 0.  The recovery attempts are made with
    remounting on only: they send 1 when the mountpoint was found unmounted,
    which is when the mount query at the start of the check says so, and then
    2 when listing it failed, each once.  So with remounting off a check sends
    its code exactly once when the code is not 0 and sends nothing when it
    is 0. *)
Theorem MountMon_alerts self mp env w :
  well_configured self mp = true →
  zabbix (cfg self) = true →
  ∃ v,
    (MountMon self mp env w).1 = Ok v ∧
    let evs := events_of (MountMon self mp) env w in
    zabbix_values evs =
    recovery_alerts self mp evs ++ (if v =? 0 then [] else [v]) ∧
    unmounted_seen mp evs = negb (env_ismount env (past w) mp).
Proof.
  intros Hcfg Hz.
  pose proof Hcfg as (_ & [[checkdir checkfile] Hp] & _)%well_configured_inv.
  destruct (MountMon_run _ _ _ _ env w Hcfg Hp) as (evs & v & w' & Hrun & Hw' & Htr).
  exists v. rewrite (events_of_run _ _ _ _ _ _ Hrun Hw'), Hrun.
  pose proof (paths_of_below _ _ _ _ Hp) as Hcd.
  split; [done|]. split; [by eapply MountMon_trace_sent|].
  destruct (MountMon_trace_unmounted _ _ _ _ _ _ Hz Hcd Htr)
    as (b & rest & -> & ->).
  destruct (MountMon_first_event self mp env w) as (rest' & Hpast & Hfirst).
  rewrite Hrun in Hpast. cbn in Hpast. rewrite Hw' in Hpast.
  apply app_inv_head in Hpast as <-.
  destruct Hfirst as [[=]|[rest'' [= -> _]]]. done.
Qed.

(** *** Binary64 operations that round nothing *)

Lemma digits2_pos_log2 p : Z.pos (digits2_pos p) = Z.log2 (Z.pos p) + 1.
Proof.
  induction p as [p IH|p IH|]; cbn [digits2_pos]; [| |done].
  - rewrite Pos2Z.inj_succ, IH. change (Z.pos p~1) with (2 * Z.pos p + 1).
    rewrite Z.log2_succ_double by lia. lia.
  - rewrite Pos2Z.inj_succ, IH. change (Z.pos p~0) with (2 * Z.pos p).
    rewrite Z.log2_double by lia. lia.
Qed.

Lemma iter_xO m d : Z.pos (Pos.iter xO m d) = Z.pos m * 2 ^ Z.pos d.
Proof.
  induction d as [|d IH] using Pos.peano_ind.
  - cbn. lia.
  - rewrite Pos.iter_succ, Pos2Z.inj_succ, Z.pow_succ_r by lia.
    change (Z.pos (Pos.iter xO m d)~0) with (2 * Z.pos (Pos.iter xO m d)).
    rewrite IH. lia.
Qed.

Lemma iter_pos_iter {A} (f : A → A) n x : SpecFloat.iter_pos f n x = Pos.iter f x n.
Proof.
  revert x. induction n as [n IH|n IH|]; intros x; cbn; [| |done].
  - rewrite !IH. by rewrite <- !Pos.iter_swap.
  - by rewrite !IH.
Qed.

Lemma iter_shr_1 m n :
  0 < m → (2 ^ Z.pos n | m) →
  SpecFloat.iter_pos shr_1 n {| shr_m := m; shr_r := false; shr_s := false |}
  = {| shr_m := m / 2 ^ Z.pos n; shr_r := false; shr_s := false |}.
Proof.
  rewrite iter_pos_iter. intros Hm.
  induction n as [|n IH] using Pos.peano_ind; intros [k Hk].
  - change (2 ^ 1) with 2 in *. assert (0 < k) as Hk0 by lia.
    destruct k as [|k|k]; try lia. subst m.
    rewrite Z.div_mul by lia. rewrite Z.mul_comm, <- (Pos2Z.inj_xO k). done.
  - rewrite Pos2Z.inj_succ, Z.pow_succ_r in Hk |- * by lia.
    assert (0 < 2 ^ Z.pos n) as Hpow by lia.
    rewrite Pos.iter_succ, IH by (exists (2 * k); lia).
    assert (m / 2 ^ Z.pos n = k * 2) as ->.
    { rewrite Hk. replace (k * (2 * 2 ^ Z.pos n)) with (k * 2 * 2 ^ Z.pos n) by lia.
      apply Z.div_mul. lia. }
    assert (m / (2 * 2 ^ Z.pos n) = k) as ->.
    { rewrite Hk. apply Z.div_mul. lia. }
    assert (0 < k) as Hk0 by nia.
    destruct k as [|k|k]; try lia.
    rewrite Z.mul_comm, <- (Pos2Z.inj_xO k). done.
Qed.

Lemma digits_scale m M k :
  0 ≤ k → Z.pos M = Z.pos m * 2 ^ k →
  Z.pos (digits2_pos M) = Z.pos (digits2_pos m) + k.
Proof.
  intros Hk HM. rewrite !digits2_pos_log2, HM, Z.log2_mul_pow2 by lia. lia.
Qed.

Lemma shr_fexp_canonical M E :
  fexp prec emax (Z.pos (digits2_pos M) + E) = E →
  shr_fexp prec emax (Z.pos M) E loc_Exact
  = ({| shr_m := Z.pos M; shr_r := false; shr_s := false |}, E).
Proof.
  intros Hc. unfold shr_fexp. cbn [Zdigits2]. rewrite Hc, Z.sub_diag. done.
Qed.

Lemma binary_round_aux_canonical s M E :
  fexp prec emax (Z.pos (digits2_pos M) + E) = E → E ≤ emax - prec →
  binary_round_aux prec emax s (Z.pos M) E loc_Exact = S754_finite s M E.
Proof.
  intros Hc HE. unfold binary_round_aux.
  rewrite (shr_fexp_canonical _ _ Hc). cbn [shr_m loc_of_shr_record round_nearest_even].
  rewrite (shr_fexp_canonical _ _ Hc). cbn [shr_m].
  by apply Z.leb_le in HE as ->.
Qed.

Lemma binary_round_exact s m e M E :
  (e ≤ E ∧ Z.pos m = Z.pos M * 2 ^ (E - e)) ∨
  (E ≤ e ∧ Z.pos M = Z.pos m * 2 ^ (e - E)) →
  fexp prec emax (Z.pos (digits2_pos M) + E) = E → E ≤ emax - prec →
  binary_round prec emax s m e = S754_finite s M E.
Proof.
  intros Hval Hc HE.
  assert (Z.pos (digits2_pos m) + e = Z.pos (digits2_pos M) + E) as Hd.
  { destruct Hval as [[Hle Hm]|[Hle HM]].
    - rewrite (digits_scale M m (E - e)) by lia. lia.
    - rewrite (digits_scale m M (e - E)) by lia. lia. }
  unfold binary_round. rewrite Hd, Hc. unfold shl_align.
  destruct (E - e) as [|d|d] eqn:Hdiff.
  - assert (e = E) as -> by lia.
    assert (M = m) as ->.
    { destruct Hval as [[_ H]|[_ H]]; rewrite ?Z.sub_diag in H;
        change (2 ^ 0) with 1 in H; lia. }
    by apply binary_round_aux_canonical.
  - destruct Hval as [[_ Hm]|[? ?]]; [|lia].
    unfold binary_round_aux, shr_fexp. cbn [Zdigits2 shr_record_of_loc].
    rewrite Hd, Hc, Hdiff. cbn [shr].
    rewrite iter_shr_1; [|lia|by exists (Z.pos M); lia].
    rewrite Hm, Z.div_mul by lia. cbn [shr_m loc_of_shr_record round_nearest_even].
    replace (e + Z.pos d) with E by lia.
    cbn [Zdigits2 shr_record_of_loc]. rewrite Hc, Z.sub_diag. cbn [shr shr_m].
    by apply Z.leb_le in HE as ->.
  - destruct Hval as [[? ?]|[_ HM]]; [lia|].
    replace (e - E) with (Z.pos d) in HM by lia.
    assert (Pos.iter xO m d = M) as ->.
    { apply Pos2Z.inj. by rewrite iter_xO. }
    by apply binary_round_aux_canonical.
Qed.

(** The canonical form of [N * 2 ^ g]. *)
Lemma canonical_form N g :
  0 < N < 2 ^ prec → - 1074 ≤ g → g ≤ emax - prec →
  let E := fexp prec emax (Z.log2 N + 1 + g) in
  ∃ M,
    Z.pos M = N * 2 ^ (g - E) ∧ E ≤ g ∧ - 1074 ≤ E ∧
    fexp prec emax (Z.pos (digits2_pos M) + E) = E ∧ E ≤ emax - prec.
Proof.
  intros HN Hg Hg' E.
  assert (Z.log2 N < prec) as Hlog by (apply Z.log2_lt_pow2; lia).
  assert (E ≤ g ∧ -1074 ≤ E) as [HE HE'].
  { subst E. unfold fexp, SpecFloat.emin. change prec with 53 in *.
    change emax with 1024 in *. lia. }
  assert (0 < N * 2 ^ (g - E)) as Hpos.
  { apply Z.mul_pos_pos; [lia|]. apply Z.pow_pos_nonneg; lia. }
  destruct (N * 2 ^ (g - E)) as [|M|] eqn:HM; try lia.
  exists M. split; [done|]. split; [done|]. split; [done|]. split; [|lia].
  rewrite digits2_pos_log2, <- HM, Z.log2_mul_pow2 by lia.
  replace (g - E + Z.log2 N + 1 + E) with (Z.log2 N + 1 + g) by lia. done.
Qed.

(** [binary_normalize] rounds nothing when the value is that of [N * 2 ^ g]
    with [N] below [2 ^ 53]. *)
Lemma binary_normalize_exact D q N g :
  0 < N < 2 ^ prec → - 1074 ≤ g → g ≤ emax - prec →
  q ≤ g → D = N * 2 ^ (g - q) →
  ∃ M E,
    binary_normalize prec emax D q false = S754_finite false M E ∧
    valid_binary (S754_finite false M E) = true ∧
    - 1074 ≤ E ∧ E ≤ g ∧ Z.pos M = N * 2 ^ (g - E).
Proof.
  intros HN Hg Hg' Hq HD.
  destruct (canonical_form N g HN Hg Hg') as (M & HM & HEg & HE & Hc & Hb).
  set (E := fexp prec emax (Z.log2 N + 1 + g)) in *.
  exists M, E.
  assert (0 < D) as HD0.
  { subst D. apply Z.mul_pos_pos; [lia|]. apply Z.pow_pos_nonneg; lia. }
  destruct D as [|m|]; try lia. cbn [binary_normalize].
  split; [|split; [|done]].
  - apply binary_round_exact; [|done|done].
    destruct (Z_le_gt_dec q E) as [Hle|Hgt].
    + left. split; [done|]. rewrite HD, HM, <- Z.mul_assoc, <- Z.pow_add_r by lia.
      do 2 f_equal. lia.
    + right. split; [lia|]. rewrite HD, HM, <- Z.mul_assoc, <- Z.pow_add_r by lia.
      do 2 f_equal. lia.
  - cbn. unfold bounded, canonical_mantissa. rewrite Hc, Z.eqb_refl.
    by apply Z.leb_le in Hb as ->.
Qed.

Lemma valid_bounds s m e :
  valid_binary (S754_finite s m e) = true →
  - 1074 ≤ e ∧ e ≤ emax - prec ∧ Z.pos m < 2 ^ prec.
Proof.
  cbn. unfold bounded, canonical_mantissa.
  intros [Hc%Z.eqb_eq Hb%Z.leb_le]%andb_true_iff.
  unfold fexp, SpecFloat.emin in Hc. rewrite digits2_pos_log2 in Hc.
  change prec with 53 in *. change emax with 1024 in *.
  split; [lia|]. split; [lia|].
  apply Z.log2_lt_pow2; lia.
Qed.

Lemma finite_bounds x s m e :
  Prim2SF x = S754_finite s m e →
  - 1074 ≤ e ∧ e ≤ emax - prec ∧ Z.pos m < 2 ^ prec.
Proof. intros H. apply (valid_bounds s). rewrite <- H. apply Prim2SF_valid. Qed.

Lemma shl_align_value m e e' :
  e' ≤ e → Z.pos (shl_align m e e').1 = Z.pos m * 2 ^ (e - e').
Proof.
  intros Hle. unfold shl_align. destruct (e' - e) as [|d|d] eqn:Hd; cbn [fst].
  - replace (e - e') with 0 by lia. change (2 ^ 0) with 1. lia.
  - lia.
  - rewrite iter_xO. do 2 f_equal. lia.
Qed.

(** Subtraction of a smaller positive float rounds nothing when the
    difference is [N * 2 ^ g] with [N] below [2 ^ 53]. *)
Lemma sub_exact x y mx ex my ey N g :
  Prim2SF x = S754_finite false mx ex →
  Prim2SF y = S754_finite false my ey →
  let q := Z.min ex ey in
  q ≤ g → g ≤ emax - prec →
  0 < N < 2 ^ prec →
  Z.pos mx * 2 ^ (ex - q) - Z.pos my * 2 ^ (ey - q) = N * 2 ^ (g - q) →
  ∃ M E,
    Prim2SF (x - y) = S754_finite false M E ∧
    - 1074 ≤ E ∧ E ≤ g ∧ Z.pos M = N * 2 ^ (g - E).
Proof.
  intros Hx Hy q Hqg Hg' HN Hval.
  destruct (finite_bounds _ _ _ _ Hx) as (Hex & _ & _).
  destruct (finite_bounds _ _ _ _ Hy) as (Hey & _ & _).
  rewrite sub_spec, Hx, Hy. unfold SF64sub, SFsub. cbn [cond_Zopp].
  fold q. assert (q ≤ ex ∧ q ≤ ey) as (Hqx & Hqy) by (subst q; lia).
  rewrite !shl_align_value by done.
  destruct (binary_normalize_exact
              (Z.pos mx * 2 ^ (ex - q) - Z.pos my * 2 ^ (ey - q)) q N g)
    as (M & E & Hnorm & _ & HE & HEg & HM); try done; [subst q; lia|].
  exists M, E. by rewrite Hnorm.
Qed.

Lemma Prim2SF_zero : Prim2SF 0 = S754_zero false.
Proof. reflexivity. Qed.

(** The remainder by a positive finite float of a positive float that is a
    multiple [A] of its unit. *)
Lemma fmod_exact x y mx ex my ey A :
  Prim2SF x = S754_finite false mx ex →
  Prim2SF y = S754_finite false my ey →
  let q := Z.min ex ey in
  Z.pos mx * 2 ^ (ex - q) = A * 2 ^ (ey - q) →
  let N := A `mod` Z.pos my in
  if N =? 0 then fmod x y = 0%float
  else ∃ M E,
    Prim2SF (fmod x y) = S754_finite false M E ∧
    - 1074 ≤ E ∧ E ≤ ey ∧ Z.pos M = N * 2 ^ (ey - E).
Proof.
  intros Hx Hy q HA N.
  destruct (finite_bounds _ _ _ _ Hx) as (Hex & _ & _).
  destruct (finite_bounds _ _ _ _ Hy) as (Hey & Hey' & Hmy).
  assert (q ≤ ex ∧ q ≤ ey) as (Hqx & Hqy) by (subst q; lia).
  assert (0 < 2 ^ (ey - q)) as Hpow by (apply Z.pow_pos_nonneg; lia).
  unfold fmod. rewrite Hx, Hy. fold q. rewrite HA.
  rewrite Z.mul_mod_distr_r by lia. fold N.
  assert (0 ≤ N < Z.pos my) as HN by (apply Z.mod_pos_bound; lia).
  destruct (Z.eqb_spec N 0) as [->|HN0].
  - by rewrite Z.mul_0_l.
  - destruct (binary_normalize_exact (N * 2 ^ (ey - q)) q N ey)
      as (M & E & Hnorm & Hvalid & HE & HEg & HM); try done; try lia.
    exists M, E. rewrite Hnorm. split; [|done].
    by apply Prim2SF_SF2Prim.
Qed.

Lemma float_rem_fmod x y my ey :
  Prim2SF y = S754_finite false my ey →
  (fmod x y = 0%float ∨ ∃ M E, Prim2SF (fmod x y) = S754_finite false M E) →
  float_rem x y = fmod x y.
Proof.
  intros Hy Hr. unfold float_rem.
  assert ((y <? 0)%float = false) as Hy0.
  { by rewrite ltb_spec, Hy, Prim2SF_zero. }
  destruct Hr as [->|(M & E & Hr)].
  - change (0 =? 0)%float with true. cbn [negb]. rewrite Hy0. reflexivity.
  - assert ((fmod x y =? 0)%float = false) as ->.
    { by rewrite FloatAxioms.eqb_spec, Hr, Prim2SF_zero. }
    assert ((fmod x y <? 0)%float = false) as ->.
    { by rewrite ltb_spec, Hr, Prim2SF_zero. }
    by rewrite Hy0.
Qed.

(** The sleep computed from two clock readings with the same exponent and an
    interval whose unit is not coarser than theirs ends on the grid: the
    three operations round nothing. *)
Lemma cadence_exact start now step ms mn mi e ei :
  Prim2SF start = S754_finite false ms e →
  Prim2SF now = S754_finite false mn e →
  Prim2SF step = S754_finite false mi ei →
  (ms ≤ mn)%positive → ei ≤ e →
  ∃ s n i d k,
    exact start = Some s ∧ exact now = Some n ∧ exact step = Some i ∧
    exact (cadence step start now) = Some d ∧
    0 < d ≤ i ∧ 0 < k ∧ n + d - s = k * i.
Proof.
  intros Hs Hn Hi Hle Hei.
  destruct (finite_bounds _ _ _ _ Hs) as (He & He' & Hms).
  destruct (finite_bounds _ _ _ _ Hn) as (_ & _ & Hmn).
  destruct (finite_bounds _ _ _ _ Hi) as (Hei1 & Hei' & Hmi).
  set (A := (Z.pos mn - Z.pos ms) * 2 ^ (e - ei)).
  set (u := 2 ^ (ei + 1074)).
  assert (0 < u) as Hu by (apply Z.pow_pos_nonneg; lia).
  assert (0 < 2 ^ (e - ei)) as Hpe by (apply Z.pow_pos_nonneg; lia).
  assert (∀ m : Z, m * 2 ^ (e + 1074) = m * 2 ^ (e - ei) * u) as Hscale.
  { intros m. subst u. rewrite <- Z.mul_assoc, <- Z.pow_add_r by lia.
    do 2 f_equal. lia. }
  assert (0 ≤ A) as HA0 by (subst A; nia).
  assert (0 ≤ A `mod` Z.pos mi < Z.pos mi) as HN by (apply Z.mod_pos_bound; lia).
  exists (Z.pos ms * 2 ^ (e + 1074)), (Z.pos mn * 2 ^ (e + 1074)),
    (Z.pos mi * u), ((Z.pos mi - A `mod` Z.pos mi) * u), (A `div` Z.pos mi + 1).
  unfold exact at 1 2 3. rewrite Hs, Hn, Hi.
  split; [done|]. split; [done|]. split; [done|].
  assert (0 ≤ A `div` Z.pos mi) as Hdiv by (apply Z.div_pos; lia).
  pose proof (Z.div_mod A (Z.pos mi) ltac:(lia)) as Hdm.
  split; [|split; [nia|]]; [|split; [lia|]]; [|rewrite !Hscale; subst A; nia].
  (* the float that [cadence] computes *)
  assert (fmod (now - start) step = 0%float ∧ A `mod` Z.pos mi = 0 ∨
          ∃ M E, Prim2SF (fmod (now - start) step) = S754_finite false M E ∧
                 - 1074 ≤ E ∧ E ≤ ei ∧
                 Z.pos M = A `mod` Z.pos mi * 2 ^ (ei - E) ∧
                 A `mod` Z.pos mi ≠ 0) as Hr.
  { destruct (decide (mn = ms)) as [->|Hne].
    - left. assert (A = 0) as HA by (subst A; lia). rewrite HA. split; [|done].
      assert (Prim2SF (now - start) = S754_zero false) as Hx.
      { rewrite sub_spec, Hs, Hn. unfold SF64sub, SFsub. cbn [cond_Zopp].
        rewrite Z.sub_diag. done. }
      unfold fmod. rewrite Hx, Hi. apply Prim2SF_inj. by rewrite Hx.
    - assert (Z.pos ms < Z.pos mn) as Hlt by lia.
      destruct (sub_exact now start mn e ms e (Z.pos mn - Z.pos ms) e Hn Hs)
        as (M1 & E1 & Hx & HE1 & HE1e & HM1).
      { rewrite Z.min_id. lia. }
      { lia. }
      { lia. }
      { rewrite Z.min_id, !Z.sub_diag. change (2 ^ 0) with 1. lia. }
      pose proof (fmod_exact (now - start) step M1 E1 mi ei A Hx Hi) as Hf.
      cbn zeta in Hf.
      assert (Z.pos M1 * 2 ^ (E1 - Z.min E1 ei) = A * 2 ^ (ei - Z.min E1 ei))
        as HA.
      { rewrite HM1. subst A. rewrite <- !Z.mul_assoc, <- !Z.pow_add_r by lia.
        do 2 f_equal. lia. }
      specialize (Hf HA).
      destruct (Z.eqb_spec (A `mod` Z.pos mi) 0) as [H0|H0]; [by left|].
      right. destruct Hf as (M & E & ? & ? & ? & ?). by exists M, E. }
  unfold cadence. rewrite (float_rem_fmod _ _ mi ei Hi).
  2:{ destruct Hr as [[? _]|(M & E & ? & _)]; [by left|right; eauto]. }
  destruct Hr as [[-> ->]|(M & E & Hr & HE & HEi & HM & HN0)].
  - unfold exact. rewrite sub_spec, Hi, Prim2SF_zero. cbn [SF64sub SFsub].
    by rewrite Z.sub_0_r.
  - destruct (sub_exact step (fmod (now - start) step) mi ei M E
                (Z.pos mi - A `mod` Z.pos mi) ei Hi Hr)
      as (M3 & E3 & Hd & HE3 & HE3i & HM3).
    { lia. }
    { lia. }
    { lia. }
    { rewrite Z.min_r by lia. rewrite HM, Z.sub_diag. change (2 ^ 0) with 1. lia. }
    unfold exact. rewrite Hd, HM3. subst u. f_equal.
    rewrite <- Z.mul_assoc, <- Z.pow_add_r by lia. do 2 f_equal. lia.
Qed.

Lemma cadence_on_grid start step now :
  in_range start step now = true →
  wakes_on_grid start step now (cadence step start now) = true.
Proof.
  unfold in_range. intros Hr.
  destruct (Prim2SF start) as [| | |[] ms e] eqn:Hs; try done.
  destruct (Prim2SF now) as [| | |[] mn e'] eqn:Hn; try done.
  destruct (Prim2SF step) as [| | |[] mi ei] eqn:Hi; try done.
  apply andb_true_iff in Hr as [[He%Z.eqb_eq Hm%Pos.leb_le]%andb_true_iff
                                  Hei%Z.leb_le].
  subst e'.
  destruct (cadence_exact start now step ms mn mi e ei Hs Hn Hi Hm Hei)
    as (s & n & i & d & k & Es & En & Ei & Ed & Hd & Hk & Hgrid).
  unfold wakes_on_grid. rewrite Es, En, Ei, Ed, Hgrid.
  assert (0 < k * i) as Hpos by nia.
  rewrite Z.mod_mul by lia.
  repeat (apply andb_true_iff; split); lia.
Qed.

(** *** The main loop *)

Lemma eqb_seconds_2 d : (d =? seconds 2)%float = true → d = seconds 2.
Proof.
  rewrite FloatAxioms.eqb_spec. intros H. apply Prim2SF_inj.
  change (Prim2SF (seconds 2)) with (S754_finite false 4503599627370496 (-51)) in *.
  destruct (Prim2SF d) as [[]|[]| |s m e]; try done.
  destruct s; try done.
  unfold SFeqb, SFcompare in H.
  destruct (Z.compare_spec e (-51)) as [He| |]; try done. subst e.
  destruct (PosDef.Pos.compare_cont Eq m 4503599627370496) eqn:Hm; try done.
  by apply (Pos.compare_eq m) in Hm as ->.
Qed.

Lemma paced_app start step prev evs evs' :
  paced start step prev (evs ++ evs') ↔
  paced start step prev evs ∧ paced start step (last_event prev evs) evs'.
Proof.
  revert prev. induction evs as [|e evs IH]; intros prev; [cbn; tauto|].
  cbn [app paced]. rewrite IH.
  replace (last_event (Some e) evs) with (last_event prev (e :: evs)); [tauto|].
  unfold last_event. rewrite last_cons. by destruct (last evs).
Qed.

Lemma well_paced_nil start step : well_paced start step [].
Proof. by intros prev. Qed.

Lemma well_paced_app start step evs evs' :
  well_paced start step evs → well_paced start step evs' →
  well_paced start step (evs ++ evs').
Proof.
  intros H H' prev. apply paced_app. split; [apply H|apply H'].
Qed.

(** Inside a check there is no clock reading and every sleep is the settle
    delay. *)
Lemma MountMon_events_paced start step prev evs :
  Forall (λ e, MountMon_event e = true) evs →
  match prev with
  | Some (ETime _) => head evs = None ∨ ∃ b mp rest, evs = EIsMount mp b :: rest
  | _ => True
  end →
  paced start step prev evs.
Proof.
  intros Hevs. revert prev.
  induction Hevs as [|e evs He Hevs IH]; intros prev Hprev; [done|].
  cbn [paced]. split.
  - destruct e; try done. apply eqb_seconds_2 in He.
    destruct prev as [[]|]; try done.
    destruct Hprev as [[=]|(? & ? & ? & [=])].
  - apply IH. by destruct e.
Qed.

Lemma MountMon_paced start step self mp :
  adds (well_paced start step) (MountMon self mp).
Proof.
  intros env w.
  destruct (MountMon_emits self mp env w) as (evs & Hpast & Hevs).
  destruct (MountMon_first_event self mp env w) as (evs' & Hpast' & Hfirst).
  rewrite Hpast in Hpast'. apply app_inv_head in Hpast' as <-.
  exists evs. split; [done|]. intros prev.
  apply MountMon_events_paced; [done|].
  destruct prev as [[]|]; try done.
  destruct Hfirst as [->|[rest ->]]; [by left|]. right. eauto.
Qed.

(** The statements of the loop body after the check. *)
Lemma loop_tail_paced self start (err : Z) :
  adds (well_paced start (interval (cfg self)))
    (now ← time_time;
     shown ← str_float now;
     logger_log self DEBUG ("Looped at " +:+ shown);;
     logger_log self DEBUG ("return = " +:+ pretty err);;
     now ← time_time;
     late ← py_mod (now - start)%float (interval (cfg self));
     time_sleep (interval (cfg self) - late)%float).
Proof.
  intros env w.
  unfold mbind, M_bind, time_time, str_float, logger_log, py_mod, time_sleep.
  cbn. destruct (logger self); cbn.
  - destruct (interval (cfg self) =? 0)%float; cbn.
    + eexists. flat. split; [reflexivity|]. by intros prev.
    + destruct (_ <? 0)%float; cbn.
      * eexists. flat. split; [reflexivity|]. by intros prev.
      * eexists. flat. split; [reflexivity|]. intros prev. by cbn.
  - eexists. split; [reflexivity|]. by intros prev.
Qed.

Lemma loop_body_paced self start mountpoint :
  adds (well_paced start (interval (cfg self))) (loop_body self start mountpoint).
Proof.
  unfold loop_body.
  apply adds_bind; [apply well_paced_app|apply MountMon_paced|].
  intros err. apply loop_tail_paced.
Qed.

Lemma MainLoop_while_paced turns self start :
  adds (well_paced start (interval (cfg self))) (MainLoop_while turns self start).
Proof.
  induction turns as [|n IH]; cbn.
  - by apply adds_ret, well_paced_nil.
  - apply adds_bind; [apply well_paced_app| |].
    + unfold MainLoop_turn. apply adds_try; [apply well_paced_app| |].
      * apply adds_bind; [apply well_paced_app| |].
        -- apply adds_for_each;
             [apply well_paced_nil|apply well_paced_app|apply loop_body_paced].
        -- intros _. by apply adds_ret, well_paced_nil.
      * intros []; first [by apply adds_ret, well_paced_nil
                         |by apply adds_raise, well_paced_nil].
    + intros []; [by apply adds_ret, well_paced_nil|done].
Qed.

Lemma paced_sleep start step evs :
  ∀ prev pre d post,
    paced start step prev evs →
    evs = pre ++ ESleep d :: post →
    match last_event prev pre with
    | Some (ETime now) => d = cadence step start now
    | _ => d = seconds 2
    end.
Proof.
  intros prev pre d post Hp ->. apply paced_app in Hp as [_ [Hp _]].
  by destruct (last_event prev pre) as [[]|].
Qed.

(** The loop body on a mountpoint whose check cannot raise, with an interval
    other than zero and a sleep that is never negative. *)
Lemma loop_body_run self start mp env w :
  well_configured self mp = true →
  (interval (cfg self) =? 0)%float = false →
  (∀ h, (cadence (interval (cfg self)) start (env_time env h) <? 0)%float
        = false) →
  ∃ checkdir checkfile check v t now w',
    paths_of self mp = Some (checkdir, checkfile) ∧
    MountMon_trace self mp checkdir checkfile check v ∧
    loop_body self start mp env w = (Ok (), w') ∧
    past w' = past w ++ check ++ loop_tail self (env_str_float env) start v t now.
Proof.
  intros Hwc Hstep Hsleep.
  destruct (well_configured_inv _ _ Hwc) as (Hcfg & [[checkdir checkfile] Hp] & _).
  destruct (MountMon_run self mp checkdir checkfile env w Hwc Hp)
    as (check & v & w1 & Hrun & Hpast & Htr).
  assert (has_logger self = true) as Hlog.
  { unfold can_alert in Hcfg. by apply andb_true_iff in Hcfg as [? _]. }
  unfold loop_body, mbind at 1, M_bind at 1. rewrite Hrun.
  unfold mbind, M_bind, time_time, str_float. cbn.
  rewrite !logger_log_run by done. cbn.
  unfold py_mod. rewrite Hstep. cbn. unfold time_sleep.
  unfold cadence in Hsleep.
  rewrite Hsleep. cbn.
  eexists checkdir, checkfile, check, v, _, _, _.
  split; [done|]. split; [done|]. split; [reflexivity|].
  cbn. rewrite Hpast. unfold loop_tail. by flat.
Qed.

Lemma for_each_loop_body_run self start mps env w :
  Forall (λ mp, well_configured self mp = true) mps →
  (interval (cfg self) =? 0)%float = false →
  (∀ h, (cadence (interval (cfg self)) start (env_time env h) <? 0)%float
        = false) →
  ∃ evs w',
    for_each mps (loop_body self start) env w = (Ok (), w') ∧
    past w' = past w ++ evs ∧
    MainLoop_trace self (env_str_float env) start mps evs.
Proof.
  intros Hmps Hstep Hsleep. revert w.
  induction Hmps as [|mp mps Hmp Hmps IH]; intros w; cbn [for_each].
  - exists [], w. split; [done|]. rewrite app_nil_r. split; [done|constructor].
  - destruct (loop_body_run self start mp env w Hmp Hstep Hsleep)
      as (checkdir & checkfile & check & v & t & now & w1 & Hp & Htr & Hrun & Hpast).
    destruct (IH w1) as (evs & w2 & Hrun' & Hpast' & Htr').
    unfold mbind, M_bind. rewrite Hrun, Hrun'.
    eexists _, w2. split; [done|]. split; [|by eapply ml_check].
    rewrite Hpast', Hpast. by rewrite <- !app_assoc.
Qed.

Lemma MainLoop_trace_app self str start mps mps' evs evs' :
  MainLoop_trace self str start mps evs →
  MainLoop_trace self str start mps' evs' →
  MainLoop_trace self str start (mps ++ mps') (evs ++ evs').
Proof.
  induction 1 as [|mp mps checkdir checkfile check v t now rest Hp Htr Hrest IH];
    intros Hevs'; [done|].
  cbn [app]. rewrite <- !app_assoc. eapply ml_check; eauto.
Qed.

Lemma MainLoop_while_run turns self start env w :
  Forall (λ mp, well_configured self mp = true) (mountpoints (cfg self)).*1 →
  (interval (cfg self) =? 0)%float = false →
  (∀ h, (cadence (interval (cfg self)) start (env_time env h) <? 0)%float
        = false) →
  ∃ evs w',
    MainLoop_while turns self start env w = (Ok None, w') ∧
    past w' = past w ++ evs ∧
    MainLoop_trace self (env_str_float env) start
      (concat (replicate turns (mountpoints (cfg self)).*1)) evs.
Proof.
  intros Hmps Hstep Hsleep. revert w.
  induction turns as [|n IH]; intros w; cbn [MainLoop_while replicate concat].
  - exists [], w. split; [done|]. rewrite app_nil_r. split; [done|constructor].
  - destruct (for_each_loop_body_run self start _ env w Hmps Hstep Hsleep)
      as (evs & w1 & Hrun & Hpast & Htr).
    destruct (IH w1) as (evs' & w2 & Hrun' & Hpast' & Htr').
    unfold mbind at 1, M_bind at 1, MainLoop_turn, try_except.
    unfold mbind at 1, M_bind at 1. rewrite Hrun. cbn. rewrite Hrun'.
    exists (evs ++ evs'), w2. split; [done|].
    split; [by rewrite Hpast', Hpast, app_assoc|].
    by apply MainLoop_trace_app.
Qed.

(** C8: the first event of [MainLoop] is the clock reading [start], taken
    once.  Every sleep that directly follows a clock reading [now], which is
    the sleep at the end of the loop body, has the argument
    [interval - ((now - start) % interval)] as binary64 computes it; the only
    other sleeps are the settle delays of two seconds inside a check.  For
    clock readings in the range of [in_range] that sleep, added to [now]
    without rounding, ends on a point [start + k * interval] of the grid and
    lasts at most one interval, however late [now] is.  When the check of no
    mountpoint can raise, the interval is not zero and the sleep computed
    from a clock reading is never negative, the loop is still running after
    any number of turns and every check of every turn is followed by two
    clock readings and that sleep. *)
Theorem MainLoop_cadence turns self env w :
  let start := env_time env (past w) in
  let step := interval (cfg self) in
  let evs := events_of (MainLoop turns self) env w in
  (head evs = Some (ETime start) ∧
   ∀ pre d post,
     evs = pre ++ ESleep d :: post →
     (∃ pre' now,
        pre = pre' ++ [ETime now] ∧ d = cadence step start now ∧
        (in_range start step now = true →
         wakes_on_grid start step now d = true)) ∨
     ((∀ pre' now, pre ≠ pre' ++ [ETime now]) ∧ d = seconds 2)) ∧
  (Forall (λ mp, well_configured self mp = true) (mountpoints (cfg self)).*1 →
   (step =? 0)%float = false →
   (∀ h, (cadence step start (env_time env h) <? 0)%float = false) →
   (MainLoop turns self env w).1 = Ok None ∧
   ∃ rounds,
     evs = ETime start :: rounds ∧
     MainLoop_trace self (env_str_float env) start
       (concat (replicate turns (mountpoints (cfg self)).*1)) rounds).
Proof.
  intros start step evs. subst evs. split.
  - destruct (MainLoop_while_paced turns self start env
                (record_event (ETime start) w)) as (evs & Hpast & Hevs).
    assert (past (MainLoop turns self env w).2 = past w ++ ETime start :: evs)
      as Hrun.
    { unfold MainLoop, mbind, M_bind, time_time. cbn.
      fold start. rewrite Hpast. cbn. by flat. }
    rewrite (events_of_past _ _ _ _ Hrun). split; [done|].
    intros pre d post Hsplit.
    specialize (Hevs (Some (ETime start))).
    assert (paced start step None (ETime start :: evs)) as Hp by done.
    pose proof (paced_sleep _ _ _ _ _ _ _ Hp Hsplit) as Hd.
    unfold last_event in Hd. destruct (last pre) as [e|] eqn:Hlast.
    + apply last_Some in Hlast as [pre' ->].
      destruct e;
        try (right; split; [|done]; intros pre'' now [_ [=]]%app_inj_tail).
      left. eexists _, _. split; [done|]. split; [done|].
      intros Hr. rewrite Hd. by apply cadence_on_grid.
    + apply last_None in Hlast as ->. right. split; [|done].
      intros [] ?; done.
  - intros Hmps Hstep Hsleep.
    destruct (MainLoop_while_run turns self start env
                (record_event (ETime start) w) Hmps Hstep Hsleep)
      as (evs & w' & Hrun & Hpast & Htr).
    assert (MainLoop turns self env w = (Ok None, w')) as Hmain.
    { unfold MainLoop, mbind, M_bind, time_time. cbn. fold start.
      by rewrite Hrun. }
    rewrite Hmain. split; [done|]. exists evs. split; [|done].
    apply events_of_past. rewrite Hmain. cbn. rewrite Hpast. cbn. by flat.
Qed.

(** *** Startup *)

Lemma GetConfig_missing nodename path env w :
  env_yaml_load env (past w) path = None →
  GetConfig {| cfg := default_cfg nodename; logger := None |} path env w
  = (Raise (AttributeError "logger"), extend w [EYamlLoad path false]).
Proof.
  intros Hload. unfold GetConfig, try_except, mbind, M_bind, yaml_load_file.
  cbn. by rewrite Hload.
Qed.

(** C6: what the program does when the configuration file cannot be loaded:
    [GetConfig] calls [Error], which finds no [logger] attribute, so the
    process ends with a traceback and exit status 1, not 5; nothing is sent to
    Zabbix and the main loop is never entered. *)
Theorem main_config_missing turns args env w :
  env_yaml_load env (past w) (cfgfile args) = None →
  let run := run_program turns args env w in
  run.1 = Traceback (AttributeError "logger") ∧
  exit_status run.1 = Some 1 ∧
  events_of (main turns args) env w = [EYamlLoad (cfgfile args) false].
Proof.
  intros Hload run. subst run.
  assert (main turns args env w
          = (Raise (AttributeError "logger"),
             extend w [EYamlLoad (cfgfile args) false])) as Hrun.
  { unfold main, mbind at 1, M_bind at 1.
    by rewrite (GetConfig_missing _ _ _ _ Hload). }
  unfold run_program. rewrite (events_of_run _ _ _ _ _ _ Hrun eq_refl), Hrun.
  done.
Qed.

Lemma main_config_missing_witness :
  env_yaml_load healthy_env (past empty_world) (cfgfile default_args) = None ∧
  (run_program 3 default_args healthy_env empty_world).1
  = Traceback (AttributeError "logger") ∧
  exit_status (run_program 3 default_args healthy_env empty_world).1 = Some 1 ∧
  events_of (main 3 default_args) healthy_env empty_world
  = [EYamlLoad "/etc/mountmon/mountmon.yaml" false].
Proof.
  split; [reflexivity|].
  apply (main_config_missing 3 default_args healthy_env empty_world).
  reflexivity.
Defined.

(** ** The unit test and the theorems at concrete worlds *)

(** The four assertions of [test_mountmon], in its order. *)
Example test_not_mounted :
  (MountMon reference "/mymount" unmounted_env empty_world).1 = Ok 1.
Proof. vm_compute. reflexivity. Qed.

Example test_stale :
  (MountMon reference "/mymount" stale_env empty_world).1 = Ok 2.
Proof. vm_compute. reflexivity. Qed.

Example test_good :
  (MountMon reference "/mymount" healthy_env empty_world).1 = Ok 0.
Proof. vm_compute. reflexivity. Qed.

Example test_open_fails :
  (MountMon reference "/mymount"
     (steady_env true (λ _, true) true false true (Some 0) true None)
     empty_world).1 = Ok 4.
Proof. vm_compute. reflexivity. Qed.

Lemma healthy_env_healthy w mp checkdir checkfile :
  healthy_from healthy_env w mp checkdir checkfile.
Proof. intros evs. by repeat split. Defined.

Lemma MountMon_healthy_witness :
  paths_of reference "/mymount" = Some ("/mymount/check", "/mymount/check/foo") ∧
  write_check_of reference "/mymount" = Some true ∧
  healthy_from healthy_env empty_world "/mymount" "/mymount/check"
    "/mymount/check/foo" ∧
  ∃ stamp,
    (MountMon reference "/mymount" healthy_env empty_world).1 = Ok 0 ∧
    events_of (MountMon reference "/mymount") healthy_env empty_world =
    healthy_events "/mymount" "/mymount/check" "/mymount/check/foo" stamp ∧
    files (MountMon reference "/mymount" healthy_env empty_world).2 =
    <["/mymount/check/foo" := stamp +:+ newline]> (files empty_world).
Proof.
  split; [reflexivity|]. split; [reflexivity|].
  split; [apply healthy_env_healthy|].
  apply (MountMon_healthy reference "/mymount" "/mymount/check"
           "/mymount/check/foo" healthy_env empty_world);
    [reflexivity|reflexivity|apply healthy_env_healthy].
Defined.

Lemma MountMon_twice_witness :
  paths_of reference "/mymount" = Some ("/mymount/check", "/mymount/check/foo") ∧
  write_check_of reference "/mymount" = Some true ∧
  healthy_from healthy_env empty_world "/mymount" "/mymount/check"
    "/mymount/check/foo" ∧
  ∃ stamp1 stamp2,
    (MountMon reference "/mymount" healthy_env empty_world).1 = Ok 0 ∧
    files (MountMon reference "/mymount" healthy_env empty_world).2
      !! "/mymount/check/foo" = Some (stamp1 +:+ newline) ∧
    (MountMon reference "/mymount" healthy_env
       (MountMon reference "/mymount" healthy_env empty_world).2).1 = Ok 0 ∧
    events_of (MountMon reference "/mymount") healthy_env
      (MountMon reference "/mymount" healthy_env empty_world).2 =
    healthy_events "/mymount" "/mymount/check" "/mymount/check/foo" stamp2 ∧
    files (MountMon reference "/mymount" healthy_env
             (MountMon reference "/mymount" healthy_env empty_world).2).2
      !! "/mymount/check/foo" = Some (stamp2 +:+ newline).
Proof.
  split; [reflexivity|]. split; [reflexivity|].
  split; [apply healthy_env_healthy|].
  apply (MountMon_twice reference "/mymount" "/mymount/check"
           "/mymount/check/foo" healthy_env empty_world);
    [reflexivity|reflexivity|apply healthy_env_healthy].
Defined.

Lemma MountMon_not_mounted_witness :
  can_alert reference = true ∧
  paths_of reference "/mymount" = Some ("/mymount/check", "/mymount/check/foo") ∧
  env_ismount unmounted_env (past empty_world) "/mymount" = false ∧
  (MountMon reference "/mymount" unmounted_env empty_world).1 = Ok 1 ∧
  files (MountMon reference "/mymount" unmounted_env empty_world).2
  = files empty_world ∧
  Forall (λ e, is_fs_write e = false ∧ is_command e = false)
    (events_of (MountMon reference "/mymount") unmounted_env empty_world) ∧
  ∃ alerts,
    reports reference 1 alerts ∧
    events_of (MountMon reference "/mymount") unmounted_env empty_world =
    EIsMount "/mymount" false :: alerts.
Proof.
  split; [reflexivity|]. split; [reflexivity|]. split; [reflexivity|].
  apply (MountMon_not_mounted reference "/mymount" "/mymount/check"
           "/mymount/check/foo" unmounted_env empty_world); reflexivity.
Defined.

Lemma MountMon_stale_witness :
  can_alert recovering = true ∧
  paths_of recovering "/mymount" = Some ("/mymount/check", "/mymount/check/foo") ∧
  env_ismount stale_env (past empty_world) "/mymount" = true ∧
  env_listdir stale_env (past empty_world ++ [EIsMount "/mymount" true])
    "/mymount" = false ∧
  ∃ alerts cmds unmounted,
    reports recovering 2 alerts ∧
    Umount_trace "/mymount" cmds unmounted ∧
    let tried :=
      EIsMount "/mymount" true :: EListDir "/mymount" false :: alerts ++ cmds in
    if unmounted then
      ∃ rc,
        if succeeded rc then
          MountMon recovering "/mymount" stale_env empty_world =
          file_check_onward recovering "/mymount" "/mymount/check"
            "/mymount/check/foo" stale_env
            (extend empty_world
               (tried ++ [ESleep (seconds 2); EPopen (mount_cmd "/mymount") rc;
                          ESleep (seconds 2)]))
        else
          (MountMon recovering "/mymount" stale_env empty_world).1 = Ok 2 ∧
          ∃ alerts',
            reports recovering 2 alerts' ∧
            events_of (MountMon recovering "/mymount") stale_env empty_world =
            tried ++ ESleep (seconds 2)
                  :: EPopen (mount_cmd "/mymount") rc :: alerts'
    else
      (MountMon recovering "/mymount" stale_env empty_world).1 = Ok 2 ∧
      ∃ alerts',
        reports recovering 2 alerts' ∧
        events_of (MountMon recovering "/mymount") stale_env empty_world =
        tried ++ alerts'.
Proof.
  split; [reflexivity|]. split; [reflexivity|]. split; [reflexivity|].
  split; [reflexivity|].
  apply (MountMon_stale recovering "/mymount" "/mymount/check"
           "/mymount/check/foo" stale_env empty_world); reflexivity.
Defined.

Lemma MountMon_write_check_witness :
  can_alert reference = true ∧
  paths_of reference "/mymount" = Some ("/mymount/check", "/mymount/check/foo") ∧
  write_check_of reference "/mymount" = Some true ∧
  env_ismount no_checkdir_env (past empty_world) "/mymount" = true ∧
  env_listdir no_checkdir_env (past empty_world ++ [EIsMount "/mymount" true])
    "/mymount" = true ∧
  ∃ v rest,
    (MountMon reference "/mymount" no_checkdir_env empty_world).1 = Ok v ∧
    events_of (MountMon reference "/mymount") no_checkdir_env empty_world =
    EIsMount "/mymount" true :: EListDir "/mymount" true :: rest ∧
    (EListDir "/mymount/check" false ∈ rest →
     (∃ ok, EMkdir "/mymount/check" 448 ok ∈ rest) ∧
     (v = 3 ↔ EMkdir "/mymount/check" 448 false ∈ rest)) ∧
    (EListDir "/mymount/check" true ∈ rest
     ∨ EMkdir "/mymount/check" 448 true ∈ rest →
     (v = 4 ↔
      EOpen "/mymount/check/foo" false ∈ rest
      ∨ ∃ data, EWrite "/mymount/check/foo" data false ∈ rest)) ∧
    let h := past empty_world
             ++ [EIsMount "/mymount" true; EListDir "/mymount" true] in
    let created :=
      [EListDir "/mymount/check" false; EMkdir "/mymount/check" 448 true;
       ELog WARNING ("Created monitor directory " +:+ "/mymount/check")] in
    let dir := if env_listdir no_checkdir_env h "/mymount/check"
               then [EListDir "/mymount/check" true]
               else created in
    let stamp := env_ctime no_checkdir_env
                   (h ++ dir ++ [EOpen "/mymount/check/foo" true]) in
    let line := stamp +:+ newline in
    let no_dir :=
      "Dir " +:+ "/mymount" +:+ " does not exist and could not create it." in
    let no_write := "Could not write file: " +:+ "/mymount/check/foo" in
    let after :=
      files (MountMon reference "/mymount" no_checkdir_env empty_world).2 in
    if negb (env_listdir no_checkdir_env h "/mymount/check")
       && negb (env_mkdir no_checkdir_env
                  (h ++ [EListDir "/mymount/check" false]) "/mymount/check" 448)
    then
      v = 3 ∧ after = files empty_world ∧
      ∃ alerts,
        reports reference 3 alerts ∧
        last alerts = Some (ELog ERROR no_dir) ∧
        rest = EListDir "/mymount/check" false
               :: EMkdir "/mymount/check" 448 false :: alerts
    else if negb (env_open no_checkdir_env (h ++ dir) "/mymount/check/foo")
    then
      v = 4 ∧ after = files empty_world ∧
      ∃ alerts,
        reports reference 4 alerts ∧
        last alerts = Some (ELog ERROR no_write) ∧
        rest = dir ++ EOpen "/mymount/check/foo" false :: alerts
    else if env_write no_checkdir_env
              (h ++ dir ++ [EOpen "/mymount/check/foo" true; ECtime stamp])
              "/mymount/check/foo" line
    then
      v = 0 ∧ after = <["/mymount/check/foo" := line]> (files empty_world) ∧
      rest = dir ++ [EOpen "/mymount/check/foo" true; ECtime stamp;
                     EWrite "/mymount/check/foo" line true]
    else
      v = 4 ∧ after = <["/mymount/check/foo" := ""]> (files empty_world) ∧
      ∃ alerts,
        reports reference 4 alerts ∧
        last alerts = Some (ELog ERROR no_write) ∧
        rest = dir ++ EOpen "/mymount/check/foo" true :: ECtime stamp
               :: EWrite "/mymount/check/foo" line false :: alerts.
Proof.
  split; [reflexivity|]. split; [reflexivity|]. split; [reflexivity|].
  split; [reflexivity|]. split; [reflexivity|].
  apply (MountMon_write_check reference "/mymount" "/mymount/check"
           "/mymount/check/foo" no_checkdir_env empty_world); reflexivity.
Defined.

Lemma MountMon_raises_KeyError_witness :
  zabbix (cfg no_address) = true ∧
  zabbix_address (cfg no_address) = None ∧
  paths_of no_address "/mymount" = Some ("/mymount/check", "/mymount/check/foo") ∧
  env_ismount unmounted_env (past empty_world) "/mymount" = false ∧
  MountMon no_address "/mymount" unmounted_env empty_world
  = (Raise (KeyError "zabbix_address"),
     extend empty_world [EIsMount "/mymount" false]).
Proof.
  split; [reflexivity|]. split; [reflexivity|]. split; [reflexivity|].
  split; [reflexivity|].
  apply (MountMon_raises_KeyError no_address "/mymount" "/mymount/check"
           "/mymount/check/foo" unmounted_env empty_world); reflexivity.
Defined.

Lemma MountMon_alerts_witness :
  well_configured recovering "/mymount" = true ∧
  zabbix (cfg recovering) = true ∧
  ∃ v,
    (MountMon recovering "/mymount" unmounted_env empty_world).1 = Ok v ∧
    let evs := events_of (MountMon recovering "/mymount") unmounted_env
                 empty_world in
    zabbix_values evs =
    recovery_alerts recovering "/mymount" evs ++ (if v =? 0 then [] else [v]) ∧
    unmounted_seen "/mymount" evs
    = negb (env_ismount unmounted_env (past empty_world) "/mymount").
Proof.
  split; [reflexivity|]. split; [reflexivity|].
  apply (MountMon_alerts recovering "/mymount" unmounted_env empty_world);
    reflexivity.
Defined.

Lemma commands_need_failure_witness :
  env_ismount healthy_env (past empty_world) "/mymount" = true ∧
  env_listdir healthy_env (past empty_world ++ [EIsMount "/mymount" true])
    "/mymount" = true ∧
  Forall (λ e, is_command e = false)
    (events_of (MountMon recovering "/mymount") healthy_env empty_world).
Proof.
  split; [reflexivity|]. split; [reflexivity|].
  apply (proj1 (commands_need_failure recovering "/mymount" healthy_env
                  empty_world)); reflexivity.
Defined.

(** One turn of the loop with [interval: 0.1] when the clock reads
    1700000000.0 at the start and 1700000000.3 after the check: the loop
    sleeps 4.7683715836965845e-08 s, which is what is left to the third point
    of the grid, the double nearest to 0.1 being a little above 0.1 and the
    one nearest to 1700000000.3 a little below. *)
Lemma MainLoop_cadence_witness :
  events_of (MainLoop 1 tenth) drifting_env empty_world =
  (ETime 0x1.954fc4p+30
   :: healthy_events "/mymount" "/mymount/check" "/mymount/check/foo" "tick 5"
   ++ [ETime 0x1.954fc40133333p+30; ELog DEBUG "Looped at 1700000000.3";
       ELog DEBUG "return = 0"; ETime 0x1.954fc40133333p+30])
  ++ ESleep 0x1.9999999cp-25 :: [] ∧
  in_range 0x1.954fc4p+30 0x1.999999999999ap-4 0x1.954fc40133333p+30 = true ∧
  wakes_on_grid 0x1.954fc4p+30 0x1.999999999999ap-4 0x1.954fc40133333p+30
    0x1.9999999cp-25 = true ∧
  ((∃ pre' now,
      ETime 0x1.954fc4p+30
      :: healthy_events "/mymount" "/mymount/check" "/mymount/check/foo"
           "tick 5"
      ++ [ETime 0x1.954fc40133333p+30; ELog DEBUG "Looped at 1700000000.3";
          ELog DEBUG "return = 0"; ETime 0x1.954fc40133333p+30]
      = pre' ++ [ETime now] ∧
      0x1.9999999cp-25%float
      = cadence (interval (cfg tenth))
          (env_time drifting_env (past empty_world)) now ∧
      (in_range (env_time drifting_env (past empty_world))
         (interval (cfg tenth)) now = true →
       wakes_on_grid (env_time drifting_env (past empty_world))
         (interval (cfg tenth)) now 0x1.9999999cp-25 = true)) ∨
   ((∀ pre' now,
       ETime 0x1.954fc4p+30
       :: healthy_events "/mymount" "/mymount/check" "/mymount/check/foo"
            "tick 5"
       ++ [ETime 0x1.954fc40133333p+30; ELog DEBUG "Looped at 1700000000.3";
           ELog DEBUG "return = 0"; ETime 0x1.954fc40133333p+30]
       ≠ pre' ++ [ETime now]) ∧
    0x1.9999999cp-25%float = seconds 2)) ∧
  Forall (λ mp, well_configured tenth mp = true) (mountpoints (cfg tenth)).*1 ∧
  (interval (cfg tenth) =? 0)%float = false ∧
  (∀ h, (cadence (interval (cfg tenth))
           (env_time drifting_env (past empty_world))
           (env_time drifting_env h) <? 0)%float = false) ∧
  (MainLoop 2 tenth drifting_env empty_world).1 = Ok None ∧
  ∃ rounds,
    events_of (MainLoop 2 tenth) drifting_env empty_world =
    ETime (env_time drifting_env (past empty_world)) :: rounds ∧
    MainLoop_trace tenth (env_str_float drifting_env)
      (env_time drifting_env (past empty_world))
      (concat (replicate 2 (mountpoints (cfg tenth)).*1)) rounds.
Proof.
  split; [vm_compute; reflexivity|].
  split; [vm_compute; reflexivity|].
  split; [vm_compute; reflexivity|].
  split.
  { apply (proj2 (proj1 (MainLoop_cadence 1 tenth drifting_env empty_world)))
      with (post := []).
    vm_compute. reflexivity. }
  assert (∀ h, (cadence (interval (cfg tenth))
                  (env_time drifting_env (past empty_world))
                  (env_time drifting_env h) <? 0)%float = false) as Hsleep.
  { intros []; reflexivity. }
  split; [repeat constructor|]. split; [reflexivity|]. split; [exact Hsleep|].
  apply (proj2 (MainLoop_cadence 2 tenth drifting_env empty_world));
    [repeat constructor|reflexivity|exact Hsleep].
Defined.
